(** * The "obras" catalogue service (app.py): model and properties

    The service keeps an in-memory list of works ("obras") behind a FastAPI
    facade: create, list, update and delete, a CSV import and a CSV export
    through a temporary file.  This development embeds the module's code
    shallowly: Python values become Rocq data, the handlers become
    computations in a state-and-exception monad over the process state
    (the global [obras] store, the wall clock and the temporary directory),
    and the standard-library pieces the handlers call (the [csv] reader and
    writer, [str()] of a list, [ast.literal_eval], the pydantic field
    validators) are modelled next to them. *)

From Stdlib Require Import ZArith NArith List String Ascii Lia.
From stdpp Require Import base option list sorting gmap.

Open Scope Z_scope.

(** ** Python values *)

(** A Python [str] is a sequence of Unicode code points. *)
Definition pystr := list N.

(** ASCII text written as a Rocq string literal. *)
Definition str (s : string) : pystr :=
  map N_of_ascii (list_ascii_of_string s).

(** A naive [datetime.datetime] (one without [tzinfo]), as
    [datetime.utcnow()] returns it: its calendar fields. *)
Record datetime := mkDatetime {
  year : N; month : N; day : N;
  hour : N; minute : N; second : N; microsecond : N
}.

(** The query parameter [data_inicial]: the framework parses it to a naive
    datetime or, when the text carries a UTC offset, to an aware one. *)
Inductive query_datetime :=
  | Naive (d : datetime)
  | Aware (d : datetime) (utcoffset : Z).

(** Comparison of two naive datetimes: lexicographic on the fields. *)
Definition datetime_fields (d : datetime) : list N :=
  [year d; month d; day d; hour d; minute d; second d; microsecond d].

Fixpoint lex_compare (a b : list N) : comparison :=
  match a, b with
  | x :: a', y :: b' =>
      match N.compare x y with
      | Eq => lex_compare a' b'
      | c => c
      end
  | [], [] => Eq
  | [], _ :: _ => Lt
  | _ :: _, [] => Gt
  end.

Definition naive_compare (a b : datetime) : comparison :=
  lex_compare (datetime_fields a) (datetime_fields b).

(** [a >= b] on naive datetimes. *)
Definition naive_ge (a b : datetime) : bool :=
  match naive_compare a b with Lt => false | _ => true end.

Definition naive_lt (a b : datetime) : bool :=
  match naive_compare a b with Lt => true | _ => false end.

(** The exceptions that occur in the module.  [HTTPException] is the one
    FastAPI turns into a response with the given status and detail; every
    other exception that leaves a handler is answered with status 500. *)
Inductive PyExn :=
  | KeyError
  | ValueError
  | SyntaxError
  | TypeError
  | ValidationError
  | CsvError
  | UnicodeEncodeError
  | FileNotFoundError
  | HTTPException (status_code : Z) (detail : pystr).

(** The outcome of a computation: a value, an exception, or [Unmodelled]
    where the behaviour lies outside the part of the libraries that this
    development describes (it commits to nothing there). *)
Inductive Result (A : Type) :=
  | Return (a : A)
  | Raise (e : PyExn)
  | Unmodelled.
Arguments Return {A} a.
Arguments Raise {A} e.
Arguments Unmodelled {A}.

(** ** The models of app.py *)

(** [class CreateObra(BaseModel)] *)
Record CreateObra := mkCreateObra {
  c_titulo : pystr;
  c_editora : pystr;
  c_foto : pystr;
  c_autores : list pystr
}.

(** [class Obra(BaseModel)] *)
Record Obra := mkObra {
  titulo : pystr;
  editora : pystr;
  foto : pystr;
  autores : list pystr;
  id : Z;
  created_at : datetime;
  updated_at : datetime
}.

(** [class Obras]: the list and the id counter. *)
Record Obras := mkObras {
  _obras : list Obra;
  _current_id : Z
}.

(** [Obras.__init__]: an empty list, and the counter set to its length. *)
Definition Obras_init : Obras :=
  let l : list Obra := [] in
  {| _obras := l; _current_id := Z.of_nat (length l) |}.

(** ** Process state and the monad of handlers *)

(** The process state: the module-level [obras] object, the wall clock
    (the reading that the n-th call of [datetime.utcnow()] returns, and
    the number of calls made so far), the files of the temporary directory
    with their text, and the interpreter's Unicode database as far as the
    code consults it ([str.isprintable] of a character). *)
Record World := mkWorld {
  obras : Obras;
  clock : nat -> datetime;
  reads : nat;
  tmpdir : gmap positive pystr;
  isprintable : N -> bool
}.

Definition Py (A : Type) : Type := World -> Result A * World.

Definition py_ret {A} (a : A) : Py A := fun w => (Return a, w).

Definition py_raise {A} (e : PyExn) : Py A := fun w => (Raise e, w).

(** Sequencing: an exception skips the rest and keeps the state reached. *)
Definition py_bind {A B} (m : Py A) (k : A -> Py B) : Py B :=
  fun w =>
    match m w with
    | (Return a, w') => k a w'
    | (Raise e, w') => (Raise e, w')
    | (Unmodelled, w') => (Unmodelled, w')
    end.

Notation "x <~ m ;; k" := (py_bind m (fun x => k))
  (at level 100, m at next level, right associativity).
Notation "m ;;; k" := (py_bind m (fun _ => k))
  (at level 100, right associativity).

Definition get_obras_obj : Py Obras := fun w => (Return (obras w), w).

Definition set_obras_obj (o : Obras) : Py unit := fun w =>
  (Return tt,
   {| obras := o; clock := clock w; reads := reads w; tmpdir := tmpdir w;
      isprintable := isprintable w |}).

(** [datetime.datetime.utcnow()]: the next reading of the clock. *)
Definition utcnow : Py datetime := fun w =>
  (Return (clock w (reads w)),
   {| obras := obras w; clock := clock w; reads := S (reads w);
      tmpdir := tmpdir w; isprintable := isprintable w |}).

(** ** class Obras *)

(** [next((i for i, item in enumerate(self._obras) if item.id == obra_id),
    None)] *)
Definition matching_obra_index (l : list Obra) (obra_id : Z) : option nat :=
  fst <$> list_find (fun item => id item = obra_id) l.

(** [Obras.append].  The counter is incremented first; the call's keyword
    argument [updated_at=datetime.datetime.utcnow()] is evaluated before the
    constructor runs, and the constructor then fills [created_at] from its
    [default_factory], a second call of [utcnow]. *)
Definition append (obra : CreateObra) : Py Obra :=
  s <~ get_obras_obj ;;
  set_obras_obj {| _obras := _obras s; _current_id := _current_id s + 1 |} ;;;
  s <~ get_obras_obj ;;
  arg_updated_at <~ utcnow ;;
  default_created_at <~ utcnow ;;
  let result :=
    {| titulo := c_titulo obra; editora := c_editora obra;
       foto := c_foto obra; autores := c_autores obra;
       id := _current_id s;
       created_at := default_created_at;
       updated_at := arg_updated_at |} in
  set_obras_obj {| _obras := _obras s ++ [result];
                   _current_id := _current_id s |} ;;;
  py_ret result.

(** [Obras.update] *)
Definition update (obra_id : Z) (updated_obra : CreateObra)
  : Py (option Obra) :=
  s <~ get_obras_obj ;;
  match matching_obra_index (_obras s) obra_id with
  | Some i =>
      match _obras s !! i with
      | Some old =>
          arg_updated_at <~ utcnow ;;
          let new :=
            {| titulo := c_titulo updated_obra;
               editora := c_editora updated_obra;
               foto := c_foto updated_obra;
               autores := c_autores updated_obra;
               id := id old;
               created_at := created_at old;
               updated_at := arg_updated_at |} in
          set_obras_obj {| _obras := <[i := new]> (_obras s);
                           _current_id := _current_id s |} ;;;
          py_ret (Some new)
      | None => py_ret None
      end
  | None => py_ret None
  end.

(** [Obras.delete]: [self._obras.pop(matching_obra_index)] *)
Definition delete (obra_id : Z) : Py (option Obra) :=
  s <~ get_obras_obj ;;
  match matching_obra_index (_obras s) obra_id with
  | Some i =>
      match _obras s !! i with
      | Some popped =>
          set_obras_obj {| _obras := base.delete i (_obras s);
                           _current_id := _current_id s |} ;;;
          py_ret (Some popped)
      | None => py_ret None
      end
  | None => py_ret None
  end.

(** [Obras.get_all] *)
Definition get_all : Py (list Obra) :=
  s <~ get_obras_obj ;; py_ret (_obras s).

(** The test of the comprehension in [get_all_as_dict_filtered]:
    [not filter_date or obra.created_at >= filter_date].  A datetime object
    is always true, so [not filter_date] holds exactly for [None].
    [created_at] is naive; comparing it with an aware [filter_date] raises
    [TypeError]. *)
Definition filter_test (filter_date : option query_datetime) (obra : Obra)
  : Result bool :=
  match filter_date with
  | None => Return true
  | Some (Naive d) => Return (naive_ge (created_at obra) d)
  | Some (Aware _ _) => Raise TypeError
  end.

Fixpoint filter_comprehension (filter_date : option query_datetime)
  (l : list Obra) : Result (list Obra) :=
  match l with
  | [] => Return []
  | obra :: l' =>
      match filter_test filter_date obra with
      | Return keep =>
          match filter_comprehension filter_date l' with
          | Return rest => Return (if keep then obra :: rest else rest)
          | Raise e => Raise e
          | Unmodelled => Unmodelled
          end
      | Raise e => Raise e
      | Unmodelled => Unmodelled
      end
  end.

(** [Obras.get_all_as_dict_filtered]; a record stands for its [dict()]. *)
Definition get_all_as_dict_filtered (filter_date : option query_datetime)
  : Py (list Obra) :=
  fun w => (filter_comprehension filter_date (_obras (obras w)), w).

(** ** The CRUD handlers *)

(** "Obra não encontrada!" *)
Definition obra_nao_encontrada : pystr :=
  str "Obra n" ++ [227%N] ++ str "o encontrada!".

(** [POST /obras] *)
Definition post_obras (obra : CreateObra) : Py Obra := append obra.

(** [GET /obras] *)
Definition get_obras : Py (list Obra) := get_all.

(** [PUT /obras/{update_id}] *)
Definition put_obras (update_id : Z) (updated_obra : CreateObra) : Py Obra :=
  response <~ update update_id updated_obra ;;
  match response with
  | None => py_raise (HTTPException 404 obra_nao_encontrada)
  | Some r => py_ret r
  end.

(** [DELETE /obras/{delete_id}] (the module names this handler
    [post_upload_obras] a second time; the route decorator has registered
    the first one by then). *)
Definition delete_obras (delete_id : Z) : Py Obra :=
  response <~ delete delete_id ;;
  match response with
  | None => py_raise (HTTPException 404 obra_nao_encontrada)
  | Some r => py_ret r
  end.

(** The status code the framework answers with. *)
Definition status_of {A} (r : Result A) : option Z :=
  match r with
  | Return _ => Some 200
  | Raise (HTTPException s _) => Some s
  | Raise _ => Some 500
  | Unmodelled => None
  end.

(** ** The csv reader

    [csv.reader] with the "excel" dialect and [skipinitialspace=True]:
    the comma as delimiter, the double quote as quote character, doubled
    when it occurs in a field, no escape
    character, not strict.  The reader is a state machine fed one line at a
    time, character by character, and then an end-of-line mark. *)

Definition TAB : N := 9.
Definition LF : N := 10.
Definition CR : N := 13.
Definition SPACE : N := 32.
Definition QUOTE : N := 34.
Definition APOSTROPHE : N := 39.
Definition COMMA : N := 44.
Definition BACKSLASH : N := 92.

Definition is_nl (c : N) : bool := (c =? LF)%N || (c =? CR)%N.

(** The states of the parser that occur without an escape character. *)
Inductive ParserState :=
  | START_RECORD
  | START_FIELD
  | IN_FIELD
  | IN_QUOTED_FIELD
  | QUOTE_IN_QUOTED_FIELD
  | EAT_CRNL.

Record ReaderObj := mkReader {
  rd_state : ParserState;
  rd_field : pystr;
  rd_fields : list pystr
}.

(** [csv.field_size_limit()], which the module leaves at its default. *)
Definition field_limit : Z := 131072.

Definition parse_reset : ReaderObj :=
  {| rd_state := START_RECORD; rd_field := []; rd_fields := [] |}.

Definition set_state (st : ParserState) (rd : ReaderObj) : ReaderObj :=
  {| rd_state := st; rd_field := rd_field rd; rd_fields := rd_fields rd |}.

(** [parse_add_char]; [None] is the error "field larger than field
    limit". *)
Definition parse_add_char (rd : ReaderObj) (c : N) : option ReaderObj :=
  if Z.of_nat (length (rd_field rd)) >=? field_limit then None
  else Some {| rd_state := rd_state rd; rd_field := rd_field rd ++ [c];
               rd_fields := rd_fields rd |}.

Definition parse_save_field (rd : ReaderObj) : ReaderObj :=
  {| rd_state := rd_state rd; rd_field := [];
     rd_fields := rd_fields rd ++ [rd_field rd] |}.

(** The case [START_FIELD] of [parse_process_char]; the end-of-line mark
    is [None]. *)
Definition start_field (rd : ReaderObj) (c : option N) : option ReaderObj :=
  match c with
  | None => Some (set_state START_RECORD (parse_save_field rd))
  | Some ch =>
      if is_nl ch then Some (set_state EAT_CRNL (parse_save_field rd))
      else if (ch =? QUOTE)%N then Some (set_state IN_QUOTED_FIELD rd)
      else if (ch =? SPACE)%N then Some rd
      else if (ch =? COMMA)%N then Some (parse_save_field rd)
      else set_state IN_FIELD <$> parse_add_char rd ch
  end.

(** [parse_process_char]; [None] as a result is a [csv.Error]. *)
Definition parse_process_char (rd : ReaderObj) (c : option N)
  : option ReaderObj :=
  match rd_state rd with
  | START_RECORD =>
      match c with
      | None => Some rd
      | Some ch =>
          if is_nl ch then Some (set_state EAT_CRNL rd)
          else start_field (set_state START_FIELD rd) c
      end
  | START_FIELD => start_field rd c
  | IN_FIELD =>
      match c with
      | None => Some (set_state START_RECORD (parse_save_field rd))
      | Some ch =>
          if is_nl ch then Some (set_state EAT_CRNL (parse_save_field rd))
          else if (ch =? COMMA)%N
               then Some (set_state START_FIELD (parse_save_field rd))
          else parse_add_char rd ch
      end
  | IN_QUOTED_FIELD =>
      match c with
      | None => Some rd
      | Some ch =>
          if (ch =? QUOTE)%N then Some (set_state QUOTE_IN_QUOTED_FIELD rd)
          else parse_add_char rd ch
      end
  | QUOTE_IN_QUOTED_FIELD =>
      match c with
      | None => Some (set_state START_RECORD (parse_save_field rd))
      | Some ch =>
          if (ch =? QUOTE)%N
          then set_state IN_QUOTED_FIELD <$> parse_add_char rd ch
          else if (ch =? COMMA)%N
               then Some (set_state START_FIELD (parse_save_field rd))
          else if is_nl ch
               then Some (set_state EAT_CRNL (parse_save_field rd))
          else set_state IN_FIELD <$> parse_add_char rd ch
      end
  | EAT_CRNL =>
      match c with
      | None => Some (set_state START_RECORD rd)
      | Some ch => if is_nl ch then Some rd else None
      end
  end.

Definition csv_result (r : option ReaderObj) : Result ReaderObj :=
  match r with
  | Some rd => Return rd
  | None => Raise CsvError
  end.

(** One line: its characters, then the end-of-line mark.  On a NUL
    character the model commits to nothing: interpreters before 3.11
    raise [csv.Error] there, later ones read it as any other character. *)
Fixpoint parse_line (line : pystr) (rd : ReaderObj) : Result ReaderObj :=
  match line with
  | [] => csv_result (parse_process_char rd None)
  | c :: line' =>
      if (c =? 0)%N then Unmodelled
      else
        match parse_process_char rd (Some c) with
        | Some rd' => parse_line line' rd'
        | None => Raise CsvError
        end
  end.

(** Iterating the reader to the end: the rows it yields, and how the
    iteration ends (by exhaustion, with a [csv.Error], or open).  Each
    call of the reader's [__next__] starts from [parse_reset] and consumes
    lines until the parser is back in [START_RECORD]; when the lines run
    out inside a quoted field, or with a non-empty field, the pending
    field is saved and the row is yielded. *)
Fixpoint reader_rows (lines : list pystr) (rd : ReaderObj)
  : list (list pystr) * Result unit :=
  match lines with
  | [] =>
      match rd_field rd, rd_state rd with
      | [], IN_QUOTED_FIELD | _ :: _, _ =>
          ([rd_fields (parse_save_field rd)], Return tt)
      | [], _ => ([], Return tt)
      end
  | line :: rest =>
      match parse_line line rd with
      | Return rd' =>
          match rd_state rd' with
          | START_RECORD =>
              let (rows, ending) := reader_rows rest parse_reset in
              (rd_fields rd' :: rows, ending)
          | _ => reader_rows rest rd'
          end
      | Raise e => ([], Raise e)
      | Unmodelled => ([], Unmodelled)
      end
  end.

(** The lines that iterating a [StringIO] yields: the text is cut after
    every line feed, and no other character ends a line. *)
Fixpoint readlines (text : pystr) : list pystr :=
  match text with
  | [] => []
  | c :: t =>
      if (c =? LF)%N then [c] :: readlines t
      else match readlines t with
           | [] => [[c]]
           | l :: ls => (c :: l) :: ls
           end
  end.

(** ** csv.DictReader *)

(** The dict that [DictReader.__next__] builds from a row: the cells under
    the field names, a later duplicate of a name winning, and [None] under
    the names that the row is too short for.  (Surplus cells go under the
    key [None], which no code looks up; the map leaves that key out.) *)
Definition make_row (fieldnames : list pystr) (row : list pystr)
  : gmap pystr (option pystr) :=
  let d := foldl (fun d kv => <[kv.1 := Some kv.2]> d) ∅
             (zip fieldnames row) in
  foldl (fun d key => <[key := None]> d) d (drop (length row) fieldnames).

Definition nonblank (row : list pystr) : bool :=
  match row with [] => false | _ => true end.

(** The dicts that iterating [csv.DictReader(file, skipinitialspace=True)]
    yields and how the iteration ends: the first row of the reader gives
    the field names, blank rows are skipped. *)
Definition DictReader_rows (text : pystr)
  : list (gmap pystr (option pystr)) * Result unit :=
  let (rows, ending) := reader_rows (readlines text) parse_reset in
  match rows with
  | [] => ([], ending)
  | fieldnames :: data =>
      (make_row fieldnames <$> List.filter nonblank data, ending)
  end.

(** ** ast.literal_eval and the pydantic validators *)

(** The values of the literals covered here. *)
#[local] Unset Elimination Schemes.
Inductive PyValue :=
  | PyInt (z : Z)
  | PyStr (s : pystr)
  | PyList (l : list PyValue)
  | PyTuple (l : list PyValue)
  | PySet (l : list PyValue)
  | PyDict (l : list (PyValue * PyValue)).
#[local] Set Elimination Schemes.

Definition is_surrogate (c : N) : bool :=
  (0xD800 <=? c)%N && (c <=? 0xDFFF)%N.

Definition is_digit (c : N) : bool := (48 <=? c)%N && (c <=? 57)%N.

Definition hex_value (c : N) : option N :=
  if is_digit c then Some (c - 48)%N
  else if (97 <=? c)%N && (c <=? 102)%N then Some (c - 87)%N
  else if (65 <=? c)%N && (c <=? 70)%N then Some (c - 55)%N
  else None.

Fixpoint hex_number (digits : list N) (acc : N) : option N :=
  match digits with
  | [] => Some acc
  | d :: ds =>
      match hex_value d with
      | Some v => hex_number ds (16 * acc + v)%N
      | None => None
      end
  end.

(** A character that stands for itself between the quotes [q] of a string
    literal. *)
Definition plain_char (q c : N) : bool :=
  (SPACE <=? c)%N && (c <=? 0x10FFFF)%N && negb (c =? 127)%N
  && negb (c =? q)%N && negb (c =? BACKSLASH)%N && negb (is_surrogate c).

(** The body of a string literal after its opening quote [q]: the text it
    denotes and what follows the closing quote.  The escapes covered are
    the backslash, the two quotes, [\n], [\r], [\t], [\xhh], [\uhhhh] and
    [\Uhhhhhhhh]. *)
Fixpoint scan_string (q : N) (s : pystr) : option (pystr * pystr) :=
  let cons_to c r :=
    match r with Some (body, rest) => Some (c :: body, rest) | None => None end
  in
  match s with
  | [] => None
  | c :: s1 =>
      if (c =? q)%N then Some ([], s1)
      else if (c =? BACKSLASH)%N then
        match s1 with
        | [] => None
        | e :: s2 =>
            if (e =? BACKSLASH)%N || (e =? APOSTROPHE)%N || (e =? QUOTE)%N
            then cons_to e (scan_string q s2)
            else if (e =? 110)%N then cons_to LF (scan_string q s2)
            else if (e =? 114)%N then cons_to CR (scan_string q s2)
            else if (e =? 116)%N then cons_to TAB (scan_string q s2)
            else if (e =? 120)%N then
              match s2 with
              | h1 :: h2 :: s3 =>
                  match hex_number [h1; h2] 0 with
                  | Some v => cons_to v (scan_string q s3)
                  | None => None
                  end
              | _ => None
              end
            else if (e =? 117)%N then
              match s2 with
              | h1 :: h2 :: h3 :: h4 :: s3 =>
                  match hex_number [h1; h2; h3; h4] 0 with
                  | Some v => cons_to v (scan_string q s3)
                  | None => None
                  end
              | _ => None
              end
            else if (e =? 85)%N then
              match s2 with
              | h1 :: h2 :: h3 :: h4 :: h5 :: h6 :: h7 :: h8 :: s3 =>
                  match hex_number [h1; h2; h3; h4; h5; h6; h7; h8] 0 with
                  | Some v =>
                      if (v <=? 0x10FFFF)%N
                      then cons_to v (scan_string q s3)
                      else None
                  | None => None
                  end
              | _ => None
              end
            else None
        end
      else if plain_char q c then cons_to c (scan_string q s1)
      else None
  end.

Fixpoint skip_ws (s : pystr) : pystr :=
  match s with
  | c :: s' => if (c =? SPACE)%N || (c =? TAB)%N then skip_ws s' else s
  | [] => []
  end.

(** A decimal integer literal without sign, underscore or leading zero, of
    at most 18 digits. *)
Fixpoint scan_digits (n : nat) (s : pystr) (acc : Z) : option (Z * pystr) :=
  match s with
  | c :: s' =>
      if is_digit c then
        match n with
        | O => None
        | S n' => scan_digits n' s' (10 * acc + Z.of_N (c - 48))
        end
      else Some (acc, s)
  | [] => Some (acc, [])
  end.

Definition scan_int (s : pystr) : option (Z * pystr) :=
  match s with
  | c :: s' =>
      if (c =? 48)%N then
        match s' with
        | d :: _ => if is_digit d then None else Some (0, s')
        | [] => Some (0, [])
        end
      else if is_digit c then scan_digits 18 s 0
      else None
  | [] => None
  end.

Definition hashable_atom (v : PyValue) : bool :=
  match v with PyInt _ | PyStr _ => true | _ => false end.

(** The items of a display up to its closing character: values separated
    by commas, white space allowed around them, a trailing comma allowed.
    The result tells whether a comma occurred. *)
Fixpoint scan_items (value : pystr -> option (PyValue * pystr))
    (n : nat) (close : N) (s : pystr)
  : option (list PyValue * bool * pystr) :=
  match n with
  | O => None
  | S n' =>
      match skip_ws s with
      | [] => None
      | c :: s1 =>
          if (c =? close)%N then Some ([], false, s1)
          else
            match value (c :: s1) with
            | None => None
            | Some (v, s2) =>
                match skip_ws s2 with
                | [] => None
                | d :: s3 =>
                    if (d =? close)%N then Some ([v], false, s3)
                    else if (d =? COMMA)%N then
                      match scan_items value n' close s3 with
                      | Some (vs, _, s4) => Some (v :: vs, true, s4)
                      | None => None
                      end
                    else None
                end
            end
      end
  end.

(** A value of the covered syntax at the head of [s], nested at most
    [depth] deep: a string in single or double quotes, a decimal integer,
    a list display, a tuple display or a parenthesised value, a set display
    of one string or integer, an empty dict display, a dict display of one
    pair.  [None] means that the text is not of this form. *)
Fixpoint scan_value (depth : nat) (s : pystr) : option (PyValue * pystr) :=
  match depth with
  | O => None
  | S depth' =>
      match s with
      | [] => None
      | c :: s1 =>
          if (c =? APOSTROPHE)%N || (c =? QUOTE)%N then
            match scan_string c s1 with
            | Some (body, rest) => Some (PyStr body, rest)
            | None => None
            end
          else if is_digit c then
            match scan_int s with
            | Some (z, rest) => Some (PyInt z, rest)
            | None => None
            end
          else if (c =? 91)%N then
            match scan_items (scan_value depth') (length s1) 93 s1 with
            | Some (vs, _, rest) => Some (PyList vs, rest)
            | None => None
            end
          else if (c =? 40)%N then
            match scan_items (scan_value depth') (length s1) 41 s1 with
            | Some ([v], false, rest) => Some (v, rest)
            | Some (vs, _, rest) => Some (PyTuple vs, rest)
            | None => None
            end
          else if (c =? 123)%N then
            match scan_items (scan_value depth') (length s1) 125 s1 with
            | Some ([], _, rest) => Some (PyDict [], rest)
            | Some ([v], _, rest) =>
                if hashable_atom v then Some (PySet [v], rest) else None
            | Some _ => None
            | None =>
                match scan_value depth' (skip_ws s1) with
                | Some (k, s2) =>
                    match skip_ws s2 with
                    | d :: s3 =>
                        if (d =? 58)%N && hashable_atom k then
                          match scan_items (scan_value depth') 2 125 s3 with
                          | Some ([v], _, rest) => Some (PyDict [(k, v)], rest)
                          | _ => None
                          end
                        else None
                    | [] => None
                    end
                | None => None
                end
            end
          else None
      end
  end.

Definition is_upper (c : N) : bool := (65 <=? c)%N && (c <=? 90)%N.

Definition is_lower (c : N) : bool := (97 <=? c)%N && (c <=? 122)%N.

Definition is_name_char (c : N) : bool :=
  is_upper c || is_lower c || is_digit c || (c =? 95)%N.

(** An ASCII identifier with a capital letter in it, other than [None],
    [True] and [False]: it is no keyword, so it parses as a name, which
    [literal_eval] refuses with [ValueError]. *)
Definition capitalised_name (s : pystr) : bool :=
  match s with
  | [] => false
  | c :: _ =>
      negb (is_digit c) && forallb is_name_char s && existsb is_upper s
      && negb (bool_decide (s = str "None"))
      && negb (bool_decide (s = str "True"))
      && negb (bool_decide (s = str "False"))
  end.

(** [ast.literal_eval] applied to a cell: [None] (a cell that the row is
    too short for) raises [ValueError], the empty text [SyntaxError], a
    capitalised name [ValueError]; a text of the covered syntax yields its
    value.  On any other text the model commits to nothing. *)
Definition literal_eval (cell : option pystr) : Result PyValue :=
  match cell with
  | None => Raise ValueError
  | Some [] => Raise SyntaxError
  | Some s =>
      if capitalised_name s then Raise ValueError
      else
        match scan_value 8 s with
        | Some (v, []) => Return v
        | _ => Unmodelled
        end
  end.

Definition has_surrogate (s : pystr) : bool := existsb is_surrogate s.

(** pydantic's validation of a [str] field given a cell. *)
Definition validate_str (cell : option pystr) : Result pystr :=
  match cell with
  | Some s => Return s
  | None => Raise ValidationError
  end.

(** pydantic's validation of one element of a [List[str]] field.  Text is
    kept, containers are refused.  For a number (pydantic 1 turns it into
    text, pydantic 2 refuses it) and for text with a lone surrogate the
    model commits to nothing. *)
Definition validate_str_item (v : PyValue) : Result pystr :=
  match v with
  | PyStr s => if has_surrogate s then Unmodelled else Return s
  | PyInt _ => Unmodelled
  | _ => Raise ValidationError
  end.

Definition refused_item (v : PyValue) : bool :=
  match validate_str_item v with Raise _ => true | _ => false end.

Fixpoint kept_items (l : list PyValue) : Result (list pystr) :=
  match l with
  | [] => Return []
  | v :: l' =>
      match validate_str_item v, kept_items l' with
      | Return s, Return ss => Return (s :: ss)
      | _, _ => Unmodelled
      end
  end.

(** The elements of the field: the validator visits all of them and
    raises one [ValidationError] when it refuses any. *)
Definition validate_items (l : list PyValue) : Result (list pystr) :=
  if existsb refused_item l then Raise ValidationError else kept_items l.

(** pydantic's validation of a [List[str]] field: a list, a tuple or a set
    is taken as the list of its elements, anything else is refused. *)
Definition validate_list_str (v : PyValue) : Result (list pystr) :=
  match v with
  | PyList l | PyTuple l | PySet l => validate_items l
  | _ => Raise ValidationError
  end.

(** The constructor call [CreateObra(titulo=..., editora=..., foto=...,
    autores=...)]. *)
Definition CreateObra_init (titulo editora foto : option pystr)
    (autores : PyValue) : Result CreateObra :=
  match validate_str titulo, validate_str editora, validate_str foto with
  | Return t, Return e, Return f =>
      match validate_list_str autores with
      | Return a =>
          Return {| c_titulo := t; c_editora := e; c_foto := f;
                    c_autores := a |}
      | Raise e => Raise e
      | Unmodelled => Unmodelled
      end
  | _, _, _ => Raise ValidationError
  end.

(** ** POST /upload-obras *)

Definition lift {A} (r : Result A) : Py A := fun w => (r, w).

(** [row[key]] *)
Definition getitem (row : gmap pystr (option pystr)) (key : pystr)
  : Result (option pystr) :=
  match row !! key with
  | Some cell => Return cell
  | None => Raise KeyError
  end.

(** The columns that the handler reads. *)
Definition required_columns : list pystr :=
  [str "titulo"; str "editora"; str "foto"; str "autores"].

(** The expression [CreateObra(titulo=row['titulo'], editora=row['editora'],
    foto=row['foto'], autores=literal_eval(row['autores']))]: the arguments
    are evaluated from left to right, then the constructor validates. *)
Definition create_from_row (row : gmap pystr (option pystr))
  : Result CreateObra :=
  match getitem row (str "titulo") with
  | Return titulo =>
    match getitem row (str "editora") with
    | Return editora =>
      match getitem row (str "foto") with
      | Return foto =>
        match getitem row (str "autores") with
        | Return cell =>
          match literal_eval cell with
          | Return autores => CreateObra_init titulo editora foto autores
          | Raise e => Raise e
          | Unmodelled => Unmodelled
          end
        | Raise e => Raise e
        | Unmodelled => Unmodelled
        end
      | Raise e => Raise e
      | Unmodelled => Unmodelled
      end
    | Raise e => Raise e
    | Unmodelled => Unmodelled
    end
  | Raise e => Raise e
  | Unmodelled => Unmodelled
  end.

(** The [for] loop over the rows that the reader still yields, given the
    way its iteration ends. *)
Fixpoint upload_loop (rows : list (gmap pystr (option pystr)))
    (ending : Result unit) (results : list Obra) : Py (list Obra) :=
  match rows with
  | [] => lift ending ;;; py_ret results
  | row :: rows' =>
      obra <~ lift (create_from_row row) ;;
      result <~ append obra ;;
      upload_loop rows' ending (results ++ [result])
  end.

(** [try: ... except KeyError: handler] *)
Definition except_KeyError {A} (body handler : Py A) : Py A := fun w =>
  match body w with
  | (Raise KeyError, w') => handler w'
  | other => other
  end.

Definition csv_mal_formatado : pystr := str "CSV mal formatado!".

(** [POST /upload-obras], from the decoded text of the uploaded file. *)
Definition post_upload_obras (file : pystr) : Py (list Obra) :=
  let (rows, ending) := DictReader_rows file in
  except_KeyError (upload_loop rows ending [])
    (py_raise (HTTPException 400 csv_mal_formatado)).

(** The field names that the [DictReader] takes from the first row, if the
    reader yields one. *)
Definition DictReader_fieldnames (text : pystr) : option (list pystr) :=
  head (reader_rows (readlines text) parse_reset).1.

(** The four request fields of a stored record. *)
Definition request_fields (r : Obra) : CreateObra :=
  {| c_titulo := titulo r; c_editora := editora r; c_foto := foto r;
     c_autores := autores r |}.

(** Appending a list of requests one after the other: the records and the
    state reached. *)
Fixpoint append_all (cs : list CreateObra) (w : World) : list Obra * World :=
  match cs with
  | [] => ([], w)
  | c :: cs' =>
      match append c w with
      | (Return r, w') =>
          let (rs, w'') := append_all cs' w' in (r :: rs, w'')
      | (_, w') => ([], w')
      end
  end.

(** ** Rendering list displays *)

(** [', '.join(items)] *)
Fixpoint join_items (items : list pystr) : pystr :=
  match items with
  | [] => []
  | [x] => x
  | x :: rest => x ++ [COMMA; SPACE] ++ join_items rest
  end.

(** The items between square brackets, separated by a comma and a space:
    the form of [str()] of a list. *)
Definition list_display (items : list pystr) : pystr :=
  [91%N] ++ join_items items ++ [93%N].



(** ** str() of the exported values *)

Fixpoint uint_chars (u : Decimal.uint) : pystr :=
  match u with
  | Decimal.Nil => []
  | Decimal.D0 u' => 48%N :: uint_chars u'
  | Decimal.D1 u' => 49%N :: uint_chars u'
  | Decimal.D2 u' => 50%N :: uint_chars u'
  | Decimal.D3 u' => 51%N :: uint_chars u'
  | Decimal.D4 u' => 52%N :: uint_chars u'
  | Decimal.D5 u' => 53%N :: uint_chars u'
  | Decimal.D6 u' => 54%N :: uint_chars u'
  | Decimal.D7 u' => 55%N :: uint_chars u'
  | Decimal.D8 u' => 56%N :: uint_chars u'
  | Decimal.D9 u' => 57%N :: uint_chars u'
  end.

Definition decimal (n : N) : pystr := uint_chars (N.to_uint n).

(** [str()] of an [int] *)
Definition str_int (z : Z) : pystr :=
  if z <? 0 then 45%N :: decimal (Z.abs_N z) else decimal (Z.to_N z).

(** The format [%0wd] *)
Definition zfill (w : nat) (n : N) : pystr :=
  let s := decimal n in replicate (w - length s) 48%N ++ s.

(** [str()] of a naive datetime: [isoformat(sep=' ')], the microseconds
    left out when they are zero. *)
Definition str_datetime (d : datetime) : pystr :=
  zfill 4 (year d) ++ str "-" ++ zfill 2 (month d) ++ str "-"
  ++ zfill 2 (day d) ++ str " " ++ zfill 2 (hour d) ++ str ":"
  ++ zfill 2 (minute d) ++ str ":" ++ zfill 2 (second d)
  ++ (if (microsecond d =? 0)%N then []
      else str "." ++ zfill 6 (microsecond d)).

Definition hex_digit (d : N) : N :=
  if (d <? 10)%N then (48 + d)%N else (87 + d)%N.

(** [w] hexadecimal digits of [n], the most significant first. *)
Fixpoint hex_digits (w : nat) (n : N) : pystr :=
  match w with
  | O => []
  | S w' => hex_digits w' (n / 16)%N ++ [hex_digit (n mod 16)%N]
  end.

(** One character of [repr()] of a [str] whose quote is [q]. *)
Definition repr_char (printable : N -> bool) (q c : N) : pystr :=
  if (c =? q)%N || (c =? BACKSLASH)%N then [BACKSLASH; c]
  else if (c =? TAB)%N then [BACKSLASH; 116%N]
  else if (c =? LF)%N then [BACKSLASH; 110%N]
  else if (c =? CR)%N then [BACKSLASH; 114%N]
  else if (c <? SPACE)%N || (c =? 127)%N
       then BACKSLASH :: 120%N :: hex_digits 2 c
  else if (c <? 127)%N then [c]
  else if printable c then [c]
  else if (c <=? 0xff)%N then BACKSLASH :: 120%N :: hex_digits 2 c
  else if (c <=? 0xffff)%N then BACKSLASH :: 117%N :: hex_digits 4 c
  else BACKSLASH :: 85%N :: hex_digits 8 c.

(** The quote of [repr()]: the double quote when the text has an
    apostrophe and no double quote, the apostrophe otherwise. *)
Definition repr_quote (s : pystr) : N :=
  if existsb (N.eqb APOSTROPHE) s && negb (existsb (N.eqb QUOTE) s)
  then QUOTE else APOSTROPHE.

(** [repr()] of a [str] *)
Definition repr (printable : N -> bool) (s : pystr) : pystr :=
  let q := repr_quote s in
  q :: flat_map (repr_char printable q) s ++ [q].

(** [str()] of a list of [str] *)
Definition str_list (printable : N -> bool) (l : list pystr) : pystr :=
  list_display (repr printable <$> l).

(** ** csv.DictWriter *)

(** The keys of [Obra.dict()], in the order of the fields of the model:
    the [fieldnames] of the writer, taken from the first dict. *)
Definition Obra_keys : list pystr :=
  [str "titulo"; str "editora"; str "foto"; str "autores"; str "id";
   str "created_at"; str "updated_at"].

(** The cells of the row for a record.  Every dict of the list has the
    keys [Obra_keys] in that order, so [_dict_to_list] finds a value under
    each field name and no surplus key; the writer takes text as it is and
    any other value through [str()]. *)
Definition row_cells (printable : N -> bool) (r : Obra) : list pystr :=
  [titulo r; editora r; foto r; str_list printable (autores r);
   str_int (id r); str_datetime (created_at r); str_datetime (updated_at r)].

(** A character that makes the writer quote a field under
    [QUOTE_MINIMAL]: the delimiter, the quote character, and the
    characters of the line terminator. *)
Definition needs_quote (c : N) : bool :=
  (c =? COMMA)%N || (c =? QUOTE)%N || (c =? CR)%N || (c =? LF)%N.

Fixpoint double_quotes (s : pystr) : pystr :=
  match s with
  | [] => []
  | c :: s' =>
      if (c =? QUOTE)%N then QUOTE :: QUOTE :: double_quotes s'
      else c :: double_quotes s'
  end.

(** [join_append]: a field as the writer puts it in the record. *)
Definition join_append (field : pystr) : pystr :=
  if existsb needs_quote field then QUOTE :: double_quotes field ++ [QUOTE]
  else field.

Fixpoint join_fields (fields : list pystr) : pystr :=
  match fields with
  | [] => []
  | [f] => join_append f
  | f :: rest => join_append f ++ COMMA :: join_fields rest
  end.

Definition has_nul (s : pystr) : bool := existsb (N.eqb 0) s.

(** [writer.writerow]: the text that it passes to the file's [write]: the
    fields joined by commas (a lone empty field is written as two quotes)
    and the line terminator.  For a field with a NUL character the model
    commits to nothing: interpreters before 3.11 raise [csv.Error]. *)
Definition writerow (fields : list pystr) : Result pystr :=
  if existsb has_nul fields then Unmodelled
  else Return ((match fields with
                | [[]] => [QUOTE; QUOTE]
                | _ => join_fields fields
                end) ++ [CR; LF]).

(** ** The temporary file *)

(** [tempfile.NamedTemporaryFile(mode="w", encoding='utf8', newline='',
    delete=False)]: a new empty file under a name that no file of the
    directory has. *)
Definition NamedTemporaryFile : Py positive := fun w =>
  let name := fresh (dom (tmpdir w)) in
  (Return name,
   {| obras := obras w; clock := clock w; reads := reads w;
      tmpdir := <[name := []]> (tmpdir w); isprintable := isprintable w |}).

(** A character that UTF-8 encodes. *)
Definition encodable (c : N) : bool :=
  negb (is_surrogate c) && (c <=? 0x10FFFF)%N.

(** [f.write(text)] on the text file: the text is encoded at once, which
    fails on a lone surrogate, and is in the file when it is closed. *)
Definition file_write (f : positive) (text : pystr) : Py unit := fun w =>
  if forallb encodable text then
    (Return tt,
     {| obras := obras w; clock := clock w; reads := reads w;
        tmpdir := <[f := default [] (tmpdir w !! f) ++ text]> (tmpdir w);
        isprintable := isprintable w |})
  else (Raise UnicodeEncodeError, w).

(** [fc.writeheader()] *)
Definition writeheader (f : positive) : Py unit :=
  record <~ lift (writerow Obra_keys) ;;
  file_write f record.

(** [fc.writerows(obras_list)] *)
Fixpoint writerows (f : positive) (obras_list : list Obra) : Py unit :=
  match obras_list with
  | [] => py_ret tt
  | r :: rest =>
      printable <~ (fun w => (Return (isprintable w), w)) ;;
      record <~ lift (writerow (row_cells printable r)) ;;
      file_write f record ;;;
      writerows f rest
  end.

(** [cleanup]: [os.remove(temp_file)] *)
Definition cleanup (temp_file : positive) : Py unit := fun w =>
  match tmpdir w !! temp_file with
  | Some _ =>
      (Return tt,
       {| obras := obras w; clock := clock w; reads := reads w;
          tmpdir := base.delete temp_file (tmpdir w);
          isprintable := isprintable w |})
  | None => (Raise FileNotFoundError, w)
  end.

(** ** GET /file-obras *)

(** A [FileResponse]: the file to send, and the file that the background
    task [BackgroundTask(cleanup, f.name)] is to remove. *)
Record FileResponse := mkFileResponse {
  path : positive;
  media_type : pystr;
  filename : pystr;
  background : option positive
}.

Definition nenhuma_obra : pystr := str "Nenhuma obra para exportar!".

(** The handler.  An exception inside the [with] block closes the file and
    leaves it in the directory ([delete=False]); the response, and with it
    the background task, exists only when the block has completed. *)
Definition get_file_obras (data_inicial : option query_datetime)
  : Py FileResponse :=
  obras_list <~ get_all_as_dict_filtered data_inicial ;;
  match obras_list with
  | [] => py_raise (HTTPException 404 nenhuma_obra)
  | _ :: _ =>
      f <~ NamedTemporaryFile ;;
      writeheader f ;;;
      writerows f obras_list ;;;
      py_ret {| path := f; media_type := str "text/csv";
                filename := str "obras.csv"; background := Some f |}
  end.

(** The request as the framework serves it when the transmission is not
    interrupted: the handler runs; a [FileResponse] is sent in full (status
    200, the text of the file as body) and its background task runs after
    that; an exception is answered with its status. *)
Definition serve_file_obras (data_inicial : option query_datetime)
    (w : World) : option Z * option pystr * World :=
  match get_file_obras data_inicial w with
  | (Return response, w1) =>
      let w2 := match background response with
                | Some f => (cleanup f w1).2
                | None => w1
                end in
      (Some 200, tmpdir w1 !! path response, w2)
  | (outcome, w1) => (status_of outcome, None, w1)
  end.

(** ** The reader, character by character *)

(** One character of the text: the character itself and, after a line
    feed, the end-of-line mark that closes the line. *)
Definition feed_char (rd : ReaderObj) (c : N) : Result ReaderObj :=
  if (c =? 0)%N then Unmodelled
  else
    match parse_process_char rd (Some c) with
    | Some rd1 =>
        if (c =? LF)%N then csv_result (parse_process_char rd1 None)
        else Return rd1
    | None => Raise CsvError
    end.

(** [reader_rows] on a text all of whose lines end with a line feed. *)
Fixpoint reader_chars (text : pystr) (rd : ReaderObj)
  : list (list pystr) * Result unit :=
  match text with
  | [] => reader_rows [] rd
  | c :: t =>
      match feed_char rd c with
      | Return rd' =>
          if (c =? LF)%N then
            match rd_state rd' with
            | START_RECORD =>
                let (rows, ending) := reader_chars t parse_reset in
                (rd_fields rd' :: rows, ending)
            | _ => reader_chars t rd'
            end
          else reader_chars t rd'
      | Raise e => ([], Raise e)
      | Unmodelled => ([], Unmodelled)
      end
  end.

(** Every line ends with its only line feed. *)
Definition lines_ok (ls : list pystr) : Prop :=
  Forall (fun l => exists body, l = body ++ [LF] /\ LF ∉ body) ls.

(** ** Export followed by import *)

Fixpoint skip_spaces (s : pystr) : pystr :=
  match s with
  | c :: s' => if (c =? SPACE)%N then skip_spaces s' else s
  | [] => []
  end.

(** What the reader of the import makes of a field that the writer of the
    export wrote: a quoted field comes back as it was, an unquoted one
    without its leading spaces. *)
Definition read_back (x : pystr) : pystr :=
  if existsb needs_quote x then x else skip_spaces x.

(** The parser after the characters of a written field, before the
    character that ends the field. *)
Definition after_field (x : pystr) (fs : list pystr) : ReaderObj :=
  if existsb needs_quote x then mkReader QUOTE_IN_QUOTED_FIELD x fs
  else match skip_spaces x with
       | [] => mkReader START_FIELD [] fs
       | _ :: _ => mkReader IN_FIELD (skip_spaces x) fs
       end.

(** A field that the writer writes and the reader reads without error. *)
Definition field_ok (x : pystr) : bool :=
  negb (has_nul x) && (Z.of_nat (length x) <=? field_limit).

(** The text that the export writes into the temporary file. *)
Definition document_records (printable : N -> bool) (rs : list Obra)
  : list (list pystr) :=
  Obra_keys :: (row_cells printable <$> rs).

Definition record_text (fields : list pystr) : pystr :=
  join_fields fields ++ [CR; LF].

Definition document (printable : N -> bool) (rs : list Obra) : pystr :=
  concat (record_text <$> document_records printable rs).

(** A cell is written and read back: no NUL character, only characters
    that UTF-8 encodes, and no more of them than the reader's limit. *)
Definition cell_ok (x : pystr) : bool :=
  negb (has_nul x) && forallb encodable x
  && (Z.of_nat (length x) <=? field_limit).

(** A text field comes back unchanged: it is quoted, or it does not begin
    with a space. *)
Definition keeps_leading (x : pystr) : bool :=
  existsb needs_quote x
  || match x with c :: _ => negb (c =? SPACE)%N | [] => true end.

(** The condition on a record under which the export followed by the
    import gives its four request fields back. *)
Definition round_trips (printable : N -> bool) (r : Obra) : bool :=
  forallb cell_ok (row_cells printable r)
  && keeps_leading (titulo r) && keeps_leading (editora r)
  && keeps_leading (foto r)
  && forallb (forallb encodable) (autores r).

(** ** Runs of store operations *)

(** A mutation of the store, as a client request reaches it. *)
Inductive Op :=
  | OpAppend (obra : CreateObra)
  | OpUpdate (obra_id : Z) (updated_obra : CreateObra)
  | OpDelete (obra_id : Z).

(** One operation: the state it leaves, and the id of the record when the
    operation is an [append] that returned one. *)
Definition step (w : World) (o : Op) : World * option Z :=
  match o with
  | OpAppend obra =>
      match append obra w with
      | (Return r, w') => (w', Some (id r))
      | (_, w') => (w', None)
      end
  | OpUpdate obra_id updated_obra => (snd (update obra_id updated_obra w), None)
  | OpDelete obra_id => (snd (delete obra_id w), None)
  end.

Fixpoint run_ops (ops : list Op) (w : World) : World :=
  match ops with
  | [] => w
  | o :: ops' => run_ops ops' (fst (step w o))
  end.

(** The ids returned by the appends of a run, in the order of the run. *)
Fixpoint appended_ids (ops : list Op) (w : World) : list Z :=
  match ops with
  | [] => []
  | o :: ops' =>
      let (w', r) := step w o in
      match r with
      | Some i => i :: appended_ids ops' w'
      | None => appended_ids ops' w'
      end
  end.

Fixpoint count_appends (ops : list Op) : nat :=
  match ops with
  | [] => 0
  | OpAppend _ :: ops' => S (count_appends ops')
  | _ :: ops' => count_appends ops'
  end.

(** The largest id among the stored records, 0 for an empty list. *)
Definition max_id (l : list Obra) : Z := foldr Z.max 0 (id <$> l).

(** The invariant of the store: the ids of the stored records are pairwise
    different and lie between 1 and the counter. *)
Definition store_ok (s : Obras) : Prop :=
  NoDup (id <$> _obras s)
  /\ Forall (fun r => 0 < id r <= _current_id s) (_obras s)
  /\ 0 <= _current_id s.

(** A clock that advances by one microsecond at every reading. *)
Definition ticking_clock (n : nat) : datetime :=
  {| year := 2021; month := 1; day := 1; hour := 0; minute := 0;
     second := 0; microsecond := N.of_nat n |}.

(** A process that has just started.  The sample processes hold ASCII text
    only, for which [repr] does not consult the Unicode database; theirs
    calls no character printable. *)
Definition fresh_process (c : nat -> datetime) : World :=
  {| obras := Obras_init; clock := c; reads := 0; tmpdir := ∅;
     isprintable := fun _ => false |}.

(** No record of the list has the given id. *)
Definition absent (obra_id : Z) (l : list Obra) : Prop :=
  forall r, r ∈ l -> id r <> obra_id.

(** The request body of the specification's first scenario. *)
Definition sample_obra : CreateObra :=
  {| c_titulo := str "A"; c_editora := str "E"; c_foto := str "u";
     c_autores := [str "X"] |}.

(** The state [w] with the store's list and counter and the number of
    clock readings replaced. *)
Definition with_store (w : World) (l : list Obra) (n : Z) (k : nat) : World :=
  {| obras := {| _obras := l; _current_id := n |};
     clock := clock w; reads := k; tmpdir := tmpdir w;
     isprintable := isprintable w |}.

(** The state [w] with the files of the temporary directory replaced. *)
Definition with_tmpdir (w : World) (m : gmap positive pystr) : World :=
  {| obras := obras w; clock := clock w; reads := reads w; tmpdir := m;
     isprintable := isprintable w |}.

(** ** Frames and clocks *)

(** The state [w'] differs from [w] at most in the file [f] of the
    temporary directory. *)
Definition same_but_file (f : positive) (w w' : World) : Prop :=
  obras w' = obras w /\ clock w' = clock w /\ reads w' = reads w
  /\ isprintable w' = isprintable w
  /\ forall g, g <> f -> tmpdir w' !! g = tmpdir w !! g.

(** A clock whose readings never go back. *)
Definition clock_nondecreasing (c : nat -> datetime) : Prop :=
  forall n m : nat, (n <= m)%nat -> naive_ge (c m) (c n) = true.

(** [a <= b] on creation times, as the relation of a sorted list. *)
Definition not_after (a b : datetime) : Prop := naive_ge b a = true.

(** The creation times of the stored records are clock readings of the
    past of the clock [c] and do not decrease along the list. *)
Definition created_ok (c : nat -> datetime) (w : World) : Prop :=
  clock w = c
  /\ StronglySorted not_after (created_at <$> _obras (obras w))
  /\ Forall (fun r => exists k : nat, (k < reads w)%nat /\ created_at r = c k)
       (_obras (obras w)).

(* ================================================================== *)
(** * Properties *)

(** Decidable closed facts, by evaluation. *)
Ltac by_compute := apply (bool_decide_unpack _); vm_compute; exact I.

Section StoreFacts.

Implicit Types (w : World) (l : list Obra) (r : Obra) (ops : list Op).

Lemma append_eq (obra : CreateObra) w :
  let r := {| titulo := c_titulo obra; editora := c_editora obra;
              foto := c_foto obra; autores := c_autores obra;
              id := _current_id (obras w) + 1;
              created_at := clock w (S (reads w));
              updated_at := clock w (reads w) |} in
  append obra w =
    (Return r, with_store w (_obras (obras w) ++ [r])
                 (_current_id (obras w) + 1) (S (S (reads w)))).
Proof. reflexivity. Qed.

Lemma find_first_match l1 r l2 (obra_id : Z) :
  id r = obra_id ->
  (forall r', r' ∈ l1 -> id r' <> obra_id) ->
  matching_obra_index (l1 ++ r :: l2) obra_id = Some (length l1).
Proof.
  intros Hr Hl1. unfold matching_obra_index.
  induction l1 as [|a l1 IH]; simpl.
  - rewrite decide_True by done. done.
  - rewrite decide_False by (apply Hl1; left).
    specialize (IH (fun r' H => Hl1 r' (list_elem_of_further _ _ _ H))).
    destruct (list_find _ (l1 ++ r :: l2)) as [[i x]|]; simpl in *; congruence.
Qed.

Lemma find_no_match l (obra_id : Z) :
  (forall r', r' ∈ l -> id r' <> obra_id) ->
  matching_obra_index l obra_id = None.
Proof.
  intros H. unfold matching_obra_index.
  induction l as [|a l IH]; simpl; [done|].
  rewrite decide_False by (apply H; left).
  rewrite fmap_None in IH. rewrite IH; [done|].
  intros r' Hr'. apply H. by right.
Qed.

Lemma update_found w (obra_id : Z) (c : CreateObra) l1 old l2 :
  _obras (obras w) = l1 ++ old :: l2 ->
  id old = obra_id ->
  (forall r', r' ∈ l1 -> id r' <> obra_id) ->
  let new := {| titulo := c_titulo c; editora := c_editora c;
                foto := c_foto c; autores := c_autores c;
                id := id old; created_at := created_at old;
                updated_at := clock w (reads w) |} in
  update obra_id c w =
    (Return (Some new),
     with_store w (l1 ++ new :: l2) (_current_id (obras w)) (S (reads w))).
Proof.
  intros Hl Hid Hl1 new. unfold update, py_bind, get_obras_obj.
  rewrite Hl, (find_first_match l1 old l2 obra_id Hid Hl1).
  rewrite list_lookup_middle by done. simpl.
  unfold with_store. do 3 f_equal.
  rewrite insert_app_r_alt by lia. by rewrite Nat.sub_diag.
Qed.

Lemma update_not_found w (obra_id : Z) (c : CreateObra) :
  (forall r', r' ∈ _obras (obras w) -> id r' <> obra_id) ->
  update obra_id c w = (Return None, w).
Proof.
  intros H. unfold update, py_bind, get_obras_obj.
  by rewrite (find_no_match _ _ H).
Qed.

Lemma delete_found w (obra_id : Z) l1 r l2 :
  _obras (obras w) = l1 ++ r :: l2 ->
  id r = obra_id ->
  (forall r', r' ∈ l1 -> id r' <> obra_id) ->
  delete obra_id w =
    (Return (Some r),
     with_store w (l1 ++ l2) (_current_id (obras w)) (reads w)).
Proof.
  intros Hl Hid Hl1. unfold delete, py_bind, get_obras_obj.
  rewrite Hl, (find_first_match l1 r l2 obra_id Hid Hl1).
  rewrite list_lookup_middle by done. simpl.
  unfold with_store. do 3 f_equal.
  rewrite delete_middle. done.
Qed.

Lemma delete_not_found w (obra_id : Z) :
  (forall r', r' ∈ _obras (obras w) -> id r' <> obra_id) ->
  delete obra_id w = (Return None, w).
Proof.
  intros H. unfold delete, py_bind, get_obras_obj.
  by rewrite (find_no_match _ _ H).
Qed.

Lemma first_match_cases l (obra_id : Z) :
  (exists l1 r l2, l = l1 ++ r :: l2 /\ id r = obra_id
                   /\ forall r', r' ∈ l1 -> id r' <> obra_id)
  \/ (forall r', r' ∈ l -> id r' <> obra_id).
Proof.
  induction l as [|a l IH].
  - right. intros r' H. by apply elem_of_nil in H.
  - destruct (decide (id a = obra_id)) as [Ha|Ha].
    + left. exists [], a, l. split_and!; [done..|].
      intros r' H. by apply elem_of_nil in H.
    + destruct IH as [(l1 & r & l2 & -> & Hr & Hl1)|Hn].
      * left. exists (a :: l1), r, l2. split_and!; [done..|].
        intros r' [->|H]%elem_of_cons; auto.
      * right. intros r' [->|H]%elem_of_cons; auto.
Qed.

Lemma store_ok_init : store_ok Obras_init.
Proof.
  unfold store_ok, Obras_init; simpl. split_and!; [constructor|constructor|lia].
Qed.

Lemma store_ok_append (obra : CreateObra) w :
  store_ok (obras w) -> store_ok (obras (snd (append obra w))).
Proof.
  intros (Hnd & Hb & H0). rewrite append_eq. unfold store_ok; simpl.
  split_and!.
  - rewrite fmap_app. simpl. apply NoDup_app. split_and!; [done| |].
    + intros x Hx [->|Hn]%elem_of_cons; [|by apply elem_of_nil in Hn].
      apply list_elem_of_fmap in Hx as (r & Hr & Hin).
      rewrite Forall_forall in Hb. specialize (Hb r Hin). lia.
    + apply NoDup_singleton.
  - apply Forall_app. split.
    + eapply Forall_impl; [exact Hb|]. simpl. intros; lia.
    + constructor; [simpl; lia|constructor].
  - lia.
Qed.

Lemma store_ok_update (obra_id : Z) (c : CreateObra) w :
  store_ok (obras w) -> store_ok (obras (snd (update obra_id c w))).
Proof.
  intros (Hnd & Hb & H0).
  destruct (first_match_cases (_obras (obras w)) obra_id)
    as [(l1 & old & l2 & Hl & Hid & Hl1)|Hn].
  - rewrite (update_found w obra_id c l1 old l2 Hl Hid Hl1).
    unfold store_ok; simpl. rewrite Hl in Hnd, Hb.
    split_and!; [|
      |done].
    + rewrite fmap_app in *. exact Hnd.
    + apply Forall_app in Hb as [Hb1 Hb2]. apply Forall_app. split; [done|].
      inversion Hb2; subst. by constructor.
  - by rewrite (update_not_found w obra_id c Hn).
Qed.

Lemma store_ok_delete (obra_id : Z) w :
  store_ok (obras w) -> store_ok (obras (snd (delete obra_id w))).
Proof.
  intros (Hnd & Hb & H0).
  destruct (first_match_cases (_obras (obras w)) obra_id)
    as [(l1 & old & l2 & Hl & Hid & Hl1)|Hn].
  - rewrite (delete_found w obra_id l1 old l2 Hl Hid Hl1).
    unfold store_ok; simpl. rewrite Hl in Hnd, Hb.
    split_and!; [| |done].
    + rewrite fmap_app in *. simpl in Hnd.
      apply NoDup_app in Hnd as (H1 & H2 & H3).
      apply NoDup_app. split_and!; [done| |by inversion H3].
      intros x Hx Hx2. apply (H2 x Hx). by right.
    + apply Forall_app in Hb as [Hb1 Hb2]. apply Forall_app. split; [done|].
      by inversion Hb2.
  - by rewrite (delete_not_found w obra_id Hn).
Qed.

Lemma store_ok_step w (o : Op) :
  store_ok (obras w) -> store_ok (obras (fst (step w o))).
Proof.
  intros H. destruct o as [c|i c|i]; unfold step.
  - pose proof (store_ok_append c w H) as H'.
    rewrite append_eq in *. exact H'.
  - by apply store_ok_update.
  - by apply store_ok_delete.
Qed.

Lemma store_ok_run ops w :
  store_ok (obras w) -> store_ok (obras (run_ops ops w)).
Proof.
  revert w. induction ops as [|o ops IH]; intros w H; simpl; [done|].
  apply IH. by apply store_ok_step.
Qed.

Lemma update_counter (obra_id : Z) (c : CreateObra) w :
  _current_id (obras (snd (update obra_id c w))) = _current_id (obras w).
Proof.
  destruct (first_match_cases (_obras (obras w)) obra_id)
    as [(l1 & old & l2 & Hl & Hid & Hl1)|Hn].
  - by rewrite (update_found w obra_id c l1 old l2 Hl Hid Hl1).
  - by rewrite (update_not_found w obra_id c Hn).
Qed.

Lemma delete_counter (obra_id : Z) w :
  _current_id (obras (snd (delete obra_id w))) = _current_id (obras w).
Proof.
  destruct (first_match_cases (_obras (obras w)) obra_id)
    as [(l1 & old & l2 & Hl & Hid & Hl1)|Hn].
  - by rewrite (delete_found w obra_id l1 old l2 Hl Hid Hl1).
  - by rewrite (delete_not_found w obra_id Hn).
Qed.

Lemma run_counter ops w :
  _current_id (obras (run_ops ops w))
  = _current_id (obras w) + Z.of_nat (count_appends ops).
Proof.
  revert w. induction ops as [|o ops IH]; intros w; simpl; [lia|].
  rewrite IH. destruct o as [c|i c|i]; unfold step.
  - rewrite append_eq. simpl. lia.
  - simpl. rewrite update_counter. lia.
  - simpl. rewrite delete_counter. lia.
Qed.

Lemma appended_ids_from ops w :
  appended_ids ops w
  = (fun k => _current_id (obras w) + Z.of_nat k) <$> seq 1 (count_appends ops).
Proof.
  revert w. induction ops as [|o ops IH]; intros w; [done|].
  destruct o as [c|i c|i]; cbn [appended_ids count_appends]; unfold step.
  - rewrite append_eq. cbn [id]. rewrite IH. cbn [seq fmap list_fmap].
    f_equal.
    rewrite <- (fmap_S_seq 1), <- list_fmap_compose.
    apply list_fmap_ext. intros _ k _. simpl. lia.
  - rewrite IH. by rewrite update_counter.
  - rewrite IH. by rewrite delete_counter.
Qed.

End StoreFacts.

(* ------------------------------------------------------------------ *)
(** ** Identity of records *)

Section Identity.

Implicit Types (w : World) (l : list Obra) (r : Obra) (ops : list Op).

Lemma max_id_le l (n : Z) :
  0 <= n -> Forall (fun r => 0 < id r <= n) l -> max_id l <= n.
Proof.
  intros Hn H. unfold max_id.
  induction H as [|r l Hr _ IH]; [done|].
  rewrite fmap_cons. cbn [foldr]. lia.
Qed.

Lemma max_id_ge l r : r ∈ l -> id r <= max_id l.
Proof.
  unfold max_id. induction l as [|a l IH]; intros H.
  - by apply elem_of_nil in H.
  - rewrite fmap_cons. cbn [foldr].
    apply elem_of_cons in H as [->|H]; [lia|].
    specialize (IH H). lia.
Qed.

Lemma reachable_store_ok (w0 : World) ops :
  obras w0 = Obras_init -> store_ok (obras (run_ops ops w0)).
Proof. intros H. apply store_ok_run. rewrite H. apply store_ok_init. Qed.

Lemma reachable_counter (w0 : World) ops :
  obras w0 = Obras_init ->
  _current_id (obras (run_ops ops w0)) = Z.of_nat (count_appends ops).
Proof. intros H. rewrite run_counter, H. simpl. lia. Qed.

(** C1: starting from an empty store, whatever appends, updates and deletes
    are run, the ids that the appends return are 1, 2, 3, ... in the order
    of the appends; hence they are positive, strictly increasing, and no id
    is returned twice, deletions notwithstanding. *)
Theorem append_ids_consecutive (w0 : World) (ops : list Op) :
  obras w0 = Obras_init ->
  appended_ids ops w0 = Z.of_nat <$> seq 1 (count_appends ops)
  /\ NoDup (appended_ids ops w0)
  /\ (forall (i j : nat) (a b : Z),
        appended_ids ops w0 !! i = Some a ->
        appended_ids ops w0 !! j = Some b ->
        (i < j)%nat -> 0 < a < b).
Proof.
  intros H0.
  assert (E : appended_ids ops w0 = Z.of_nat <$> seq 1 (count_appends ops)).
  { rewrite appended_ids_from, H0. apply list_fmap_ext. intros _ k _.
    simpl. lia. }
  rewrite E. split_and!; [done| |].
  - apply NoDup_fmap_2; [intros x y; lia|apply NoDup_seq].
  - intros i j a b Hi Hj Hlt.
    rewrite list_lookup_fmap in Hi, Hj.
    destruct (seq 1 (count_appends ops) !! i) as [x|] eqn:Hx; [|done].
    destruct (seq 1 (count_appends ops) !! j) as [y|] eqn:Hy; [|done].
    apply lookup_seq in Hx as [-> _]. apply lookup_seq in Hy as [-> _].
    simpl in Hi, Hj. injection Hi as <-. injection Hj as <-. lia.
Qed.

Lemma append_ids_consecutive_witness :
  let ops := [OpAppend sample_obra; OpAppend sample_obra; OpDelete 2;
              OpAppend sample_obra] in
  appended_ids ops (fresh_process ticking_clock) = [1; 2; 3]
  /\ NoDup (appended_ids ops (fresh_process ticking_clock)).
Proof.
  intros ops.
  destruct (append_ids_consecutive (fresh_process ticking_clock) ops)
    as (E & Hnd & _); [reflexivity|].
  split; [exact E|exact Hnd].
Defined.

(** C8, as the specification states it, fails: after one append and the
    deletion of record 1 the store is empty, and the next append assigns
    id 2, not 1. *)
Lemma append_id_after_delete_counterexample :
  let w := run_ops [OpAppend sample_obra; OpDelete 1]
             (fresh_process ticking_clock) in
  exists r w',
    append sample_obra w = (Return r, w')
    /\ _obras (obras w) = []
    /\ id r = 2
    /\ id r <> max_id (_obras (obras w)) + 1.
Proof.
  eexists _, _. split; [apply append_eq|]. vm_compute. split_and!; congruence.
Qed.

(** C8 (amended): in every state reached from the empty store, append
    assigns the number of appends made so far plus one, which is the
    store's counter plus one; no stored id exceeds the counter; the new id
    is the largest stored id plus one whenever the record of the latest
    append is still stored, and it is 1 when nothing has been appended. *)
Theorem append_id_is_counter_plus_one (w0 : World) (ops : list Op)
    (obra : CreateObra) :
  obras w0 = Obras_init ->
  let w := run_ops ops w0 in
  exists r w',
    append obra w = (Return r, w')
    /\ id r = _current_id (obras w) + 1
    /\ id r = Z.of_nat (count_appends ops) + 1
    /\ max_id (_obras (obras w)) <= Z.of_nat (count_appends ops)
    /\ ((exists r0, r0 ∈ _obras (obras w)
                    /\ id r0 = Z.of_nat (count_appends ops)) ->
        id r = max_id (_obras (obras w)) + 1)
    /\ (count_appends ops = 0%nat -> id r = 1).
Proof.
  intros H0 w. eexists _, _. split; [apply append_eq|]. cbn [id].
  pose proof (reachable_counter w0 ops H0) as Hc. fold w in Hc.
  destruct (reachable_store_ok w0 ops H0) as (_ & Hb & Hn). fold w in Hb, Hn.
  pose proof (max_id_le _ _ Hn Hb) as Hmax.
  split_and!; [done|lia|lia| |lia].
  intros (r0 & Hin & Hid). pose proof (max_id_ge _ _ Hin). lia.
Qed.

Lemma append_id_is_counter_plus_one_witness :
  let w := run_ops [OpAppend sample_obra; OpDelete 1]
             (fresh_process ticking_clock) in
  exists r w', append sample_obra w = (Return r, w') /\ id r = 2.
Proof.
  intros w.
  destruct (append_id_is_counter_plus_one (fresh_process ticking_clock)
              [OpAppend sample_obra; OpDelete 1] sample_obra)
    as (r & w' & E & _ & Hid & _); [reflexivity|].
  exists r, w'. split; [exact E|exact Hid].
Defined.

End Identity.

(* ------------------------------------------------------------------ *)
(** ** Update and delete *)

Section UpdateDelete.

Implicit Types (w : World) (l : list Obra) (r : Obra) (ops : list Op).

Lemma filter_comprehension_sub (f : option query_datetime) l l' :
  filter_comprehension f l = Return l' -> forall r, r ∈ l' -> r ∈ l.
Proof.
  revert l'. induction l as [|a l IH]; intros l' H r Hr; simpl in H.
  - by injection H as <-.
  - destruct (filter_test f a) as [keep| |]; [|done..].
    destruct (filter_comprehension f l) as [rest| |]; [|done..].
    injection H as <-. specialize (IH rest eq_refl).
    destruct keep.
    + apply elem_of_cons in Hr as [->|Hr]; [left|right; auto].
    + right; auto.
Qed.

Lemma absent_step (obra_id : Z) w (o : Op) :
  store_ok (obras w) ->
  obra_id <= _current_id (obras w) ->
  absent obra_id (_obras (obras w)) ->
  obra_id <= _current_id (obras (fst (step w o)))
  /\ absent obra_id (_obras (obras (fst (step w o)))).
Proof.
  intros Hok Hle Habs. destruct o as [c|i c|i]; unfold step.
  - rewrite append_eq. simpl. split; [lia|].
    intros r [Hr|Hr]%elem_of_app; [by apply Habs|].
    apply elem_of_cons in Hr as [->|Hr]; [simpl; lia|by apply elem_of_nil in Hr].
  - destruct (first_match_cases (_obras (obras w)) i)
      as [(l1 & old & l2 & Hl & Hid & Hl1)|Hn].
    + rewrite (update_found w i c l1 old l2 Hl Hid Hl1). simpl.
      split; [done|]. rewrite Hl in Habs.
      intros r [Hr|Hr]%elem_of_app.
      * apply Habs, elem_of_app. by left.
      * apply elem_of_cons in Hr as [->|Hr]; simpl.
        -- apply (Habs old), elem_of_app. right; left.
        -- apply Habs, elem_of_app. right; by right.
    + by rewrite (update_not_found w i c Hn).
  - destruct (first_match_cases (_obras (obras w)) i)
      as [(l1 & old & l2 & Hl & Hid & Hl1)|Hn].
    + rewrite (delete_found w i l1 old l2 Hl Hid Hl1). simpl.
      split; [done|]. rewrite Hl in Habs.
      intros r [Hr|Hr]%elem_of_app; apply Habs, elem_of_app;
        [by left|right; by right].
    + by rewrite (delete_not_found w i Hn).
Qed.

Lemma absent_run (obra_id : Z) ops w :
  store_ok (obras w) ->
  obra_id <= _current_id (obras w) ->
  absent obra_id (_obras (obras w)) ->
  absent obra_id (_obras (obras (run_ops ops w))).
Proof.
  revert w. induction ops as [|o ops IH]; intros w Hok Hle Habs; [done|].
  simpl. destruct (absent_step obra_id w o Hok Hle Habs) as [Hle' Habs'].
  apply IH; [by apply store_ok_step|done|done].
Qed.

Lemma absent_after_delete (obra_id : Z) w l1 r l2 :
  store_ok (obras w) ->
  _obras (obras w) = l1 ++ r :: l2 ->
  id r = obra_id ->
  obra_id <= _current_id (obras w) /\ absent obra_id (l1 ++ l2).
Proof.
  intros (Hnd & Hb & _) Hl Hid. rewrite Hl in Hnd, Hb. split.
  - rewrite Forall_forall in Hb.
    assert (r ∈ l1 ++ r :: l2) as Hin by (apply elem_of_app; right; left).
    specialize (Hb r Hin). lia.
  - rewrite fmap_app in Hnd. simpl in Hnd.
    apply NoDup_app in Hnd as (H1 & H2 & H3).
    intros r' [Hr|Hr]%elem_of_app Heq.
    + apply (H2 (id r')); [by apply list_elem_of_fmap_2|].
      rewrite Heq, <- Hid. left.
    + inversion H3 as [|? ? Hnot _]; subst. apply Hnot.
      rewrite <- Heq. by apply list_elem_of_fmap_2.
Qed.

(** C3: when the store holds a record with the given id, update replaces
    the four request fields of the first such record, keeps its id and
    created_at, sets updated_at to the clock reading of the call, leaves
    every other record and the counter alone and returns the new record,
    which PUT answers with; when no record has the id, update returns
    None, the state is unchanged and PUT answers 404 with the detail
    "Obra não encontrada!". *)
Theorem update_replaces_first_match (w : World) (obra_id : Z)
    (updated_obra : CreateObra) :
  (forall l1 old l2,
     _obras (obras w) = l1 ++ old :: l2 ->
     id old = obra_id ->
     (forall r', r' ∈ l1 -> id r' <> obra_id) ->
     let new := {| titulo := c_titulo updated_obra;
                   editora := c_editora updated_obra;
                   foto := c_foto updated_obra;
                   autores := c_autores updated_obra;
                   id := id old;
                   created_at := created_at old;
                   updated_at := clock w (reads w) |} in
     let w' := with_store w (l1 ++ new :: l2) (_current_id (obras w))
                 (S (reads w)) in
     update obra_id updated_obra w = (Return (Some new), w')
     /\ put_obras obra_id updated_obra w = (Return new, w'))
  /\ ((forall r', r' ∈ _obras (obras w) -> id r' <> obra_id) ->
      update obra_id updated_obra w = (Return None, w)
      /\ put_obras obra_id updated_obra w
         = (Raise (HTTPException 404 obra_nao_encontrada), w)
      /\ status_of (fst (put_obras obra_id updated_obra w)) = Some 404).
Proof.
  split.
  - intros l1 old l2 Hl Hid Hl1 new w'.
    pose proof (update_found w obra_id updated_obra l1 old l2 Hl Hid Hl1) as E.
    split; [exact E|]. unfold put_obras, py_bind. by rewrite E.
  - intros Hn. pose proof (update_not_found w obra_id updated_obra Hn) as E.
    unfold put_obras, py_bind. rewrite E. done.
Qed.

(** C4: in every state reached from the empty store, delete removes the
    first record with the given id and returns it (DELETE answers with it),
    the other records keep their content and order, the counter is
    unchanged, and in no later state does get_all or the filtered listing
    return a record with that id; when no record has the id, delete
    returns None, the state is unchanged and DELETE answers 404 with the
    detail "Obra não encontrada!". *)
Theorem delete_removes_first_match (w0 : World) (ops0 : list Op)
    (obra_id : Z) :
  obras w0 = Obras_init ->
  let w := run_ops ops0 w0 in
  (forall l1 r l2,
     _obras (obras w) = l1 ++ r :: l2 ->
     id r = obra_id ->
     (forall r', r' ∈ l1 -> id r' <> obra_id) ->
     let w' := with_store w (l1 ++ l2) (_current_id (obras w)) (reads w) in
     delete obra_id w = (Return (Some r), w')
     /\ delete_obras obra_id w = (Return r, w')
     /\ forall (ops : list Op) (filter_date : option query_datetime)
          (l : list Obra),
          fst (get_all (run_ops ops w')) = Return l
          \/ fst (get_all_as_dict_filtered filter_date (run_ops ops w'))
             = Return l ->
          forall r', r' ∈ l -> id r' <> obra_id)
  /\ ((forall r', r' ∈ _obras (obras w) -> id r' <> obra_id) ->
      delete obra_id w = (Return None, w)
      /\ delete_obras obra_id w
         = (Raise (HTTPException 404 obra_nao_encontrada), w)
      /\ status_of (fst (delete_obras obra_id w)) = Some 404).
Proof.
  intros H0 w. pose proof (reachable_store_ok w0 ops0 H0) as Hok. fold w in Hok.
  split.
  - intros l1 r l2 Hl Hid Hl1 w'.
    pose proof (delete_found w obra_id l1 r l2 Hl Hid Hl1) as E.
    split_and!; [exact E|unfold delete_obras, py_bind; by rewrite E|].
    intros ops f l Hres r' Hr'.
    destruct (absent_after_delete obra_id w l1 r l2 Hok Hl Hid) as [Hle Habs].
    assert (Hok' : store_ok (obras w')).
    { pose proof (store_ok_delete obra_id w Hok) as H. by rewrite E in H. }
    pose proof (absent_run obra_id ops w' Hok' Hle Habs) as Hrun.
    destruct Hres as [Hres|Hres].
    + injection Hres as <-. by apply Hrun.
    + apply Hrun. eapply filter_comprehension_sub; [exact Hres|done].
  - intros Hn. pose proof (delete_not_found w obra_id Hn) as E.
    unfold delete_obras, py_bind. rewrite E. done.
Qed.

Lemma update_replaces_first_match_witness :
  let w := run_ops [OpAppend sample_obra; OpAppend sample_obra]
             (fresh_process ticking_clock) in
  let body := {| c_titulo := str "A2"; c_editora := str "E";
                 c_foto := str "u"; c_autores := [str "X"; str "Y"] |} in
  (exists new w',
     put_obras 2 body w = (Return new, w')
     /\ id new = 2 /\ titulo new = str "A2"
     /\ created_at new = ticking_clock 3 /\ updated_at new = ticking_clock 4
     /\ (id <$> _obras (obras w')) = [1; 2])
  /\ status_of (fst (put_obras 7 body w)) = Some 404.
Proof.
  intros w body.
  destruct (update_replaces_first_match w 2 body) as [Hfound _].
  destruct (update_replaces_first_match w 7 body) as [_ Hnone]. split.
  - assert (exists r1 r2, _obras (obras w) = [r1] ++ r2 :: [] /\ id r1 = 1
              /\ id r2 = 2 /\ created_at r2 = ticking_clock 3
              /\ clock w (reads w) = ticking_clock 4)
      as (r1 & r2 & El & H1 & H2 & H3 & H4)
      by (eexists _, _; vm_compute; split_and!; reflexivity).
    pose proof (Hfound [r1] r2 [] El H2) as Hf. cbv zeta in Hf.
    destruct Hf as [_ Hput].
    + intros r' Hr'. apply list_elem_of_singleton in Hr'. subst r'. lia.
    + eexists _, _. split; [exact Hput|]. simpl.
      split_and!; [exact H2|reflexivity|exact H3|exact H4|].
      by rewrite H1, H2.
  - destruct Hnone as (_ & _ & Hst); [|exact Hst].
    intros r' Hr'. vm_compute in Hr'.
    repeat (apply elem_of_cons in Hr' as [->|Hr']; [vm_compute; congruence|]).
    by apply elem_of_nil in Hr'.
Defined.

Lemma delete_removes_first_match_witness :
  let w := run_ops [OpAppend sample_obra; OpAppend sample_obra]
             (fresh_process ticking_clock) in
  (exists r w',
     delete_obras 1 w = (Return r, w')
     /\ id r = 1
     /\ (id <$> _obras (obras w')) = [2]
     /\ forall r', r' ∈ _obras (obras (run_ops [OpAppend sample_obra] w')) ->
                   id r' <> 1)
  /\ status_of (fst (delete_obras 7 w)) = Some 404.
Proof.
  intros w.
  destruct (delete_removes_first_match (fresh_process ticking_clock)
              [OpAppend sample_obra; OpAppend sample_obra] 1 eq_refl)
    as [Hfound _].
  destruct (delete_removes_first_match (fresh_process ticking_clock)
              [OpAppend sample_obra; OpAppend sample_obra] 7 eq_refl)
    as [_ Hnone].
  fold w in Hfound, Hnone. split.
  - assert (exists r1 r2, _obras (obras w) = [] ++ r1 :: [r2] /\ id r1 = 1
              /\ id r2 = 2)
      as (r1 & r2 & El & H1 & H2)
      by (eexists _, _; vm_compute; split_and!; reflexivity).
    pose proof (Hfound [] r1 [r2] El H1) as Hf. cbv zeta in Hf.
    destruct Hf as (_ & Hdel & Hlater).
    + intros r' Hr'. by apply elem_of_nil in Hr'.
    + eexists _, _. split; [exact Hdel|]. simpl.
      split_and!; [exact H1|by rewrite H2|].
      intros r' Hr'.
      apply (Hlater [OpAppend sample_obra] None _ (or_introl eq_refl) r' Hr').
  - destruct Hnone as (_ & _ & Hst); [|exact Hst].
    intros r' Hr'. vm_compute in Hr'.
    repeat (apply elem_of_cons in Hr' as [->|Hr']; [vm_compute; congruence|]).
    by apply elem_of_nil in Hr'.
Defined.

End UpdateDelete.

(* ------------------------------------------------------------------ *)
(** ** Timestamps *)

(** C2 does not hold of the code: append reads the clock twice, first for
    the [updated_at] argument and then, inside the constructor, for the
    default of [created_at].  With a clock that advances between the two
    readings the record that append returns has [updated_at] strictly
    before [created_at]. *)
Theorem append_updated_at_precedes_created_at :
  exists r w',
    append sample_obra (fresh_process ticking_clock) = (Return r, w')
    /\ updated_at r = ticking_clock 0
    /\ created_at r = ticking_clock 1
    /\ naive_ge (updated_at r) (created_at r) = false
    /\ created_at r <> updated_at r.
Proof.
  eexists _, _. split; [apply append_eq|].
  vm_compute. split_and!; congruence.
Qed.

(* ------------------------------------------------------------------ *)
(** ** The rows of the DictReader *)

Section Rows.

Implicit Types (d : gmap pystr (option pystr)) (k : pystr)
  (fieldnames row : list pystr).

Lemma zip_fst_take {A B} (l : list A) (m : list B) :
  (zip l m).*1 = take (length m) l.
Proof.
  revert m. induction l as [|a l IH]; intros [|b m]; simpl; [done..|].
  by rewrite IH.
Qed.

Lemma foldl_cells_None (kvs : list (pystr * pystr)) d k :
  foldl (fun d kv => <[kv.1 := Some kv.2]> d) d kvs !! k = None
  <-> d !! k = None /\ k ∉ kvs.*1.
Proof.
  revert d. induction kvs as [|[a b] kvs IH]; intros d; simpl.
  - split; [intros H; split; [done|apply not_elem_of_nil]|by intros [? _]].
  - rewrite IH, lookup_insert_None, not_elem_of_cons. simpl. intuition.
Qed.

Lemma foldl_restval_None (keys : list pystr) d k :
  foldl (fun d key => <[key := None]> d) d keys !! k = None
  <-> d !! k = None /\ k ∉ keys.
Proof.
  revert d. induction keys as [|a keys IH]; intros d; simpl.
  - split; [intros H; split; [done|apply not_elem_of_nil]|by intros [? _]].
  - rewrite IH, lookup_insert_None, not_elem_of_cons. simpl. intuition.
Qed.

Lemma make_row_None fieldnames row k :
  make_row fieldnames row !! k = None <-> k ∉ fieldnames.
Proof.
  unfold make_row. rewrite foldl_restval_None, foldl_cells_None.
  rewrite zip_fst_take, lookup_empty.
  rewrite <- (take_drop (length row) fieldnames) at 3.
  rewrite not_elem_of_app. intuition.
Qed.

Lemma getitem_present fieldnames row k :
  k ∈ fieldnames -> exists cell, getitem (make_row fieldnames row) k = Return cell.
Proof.
  intros Hk. unfold getitem.
  destruct (make_row fieldnames row !! k) as [cell|] eqn:E; [by eexists|].
  by apply make_row_None in E.
Qed.

Lemma getitem_absent fieldnames row k :
  k ∉ fieldnames -> getitem (make_row fieldnames row) k = Raise KeyError.
Proof.
  intros Hk. unfold getitem. by rewrite (proj2 (make_row_None _ _ _) Hk).
Qed.

Lemma DictReader_rows_made (text : pystr) fieldnames rows ending :
  DictReader_fieldnames text = Some fieldnames ->
  DictReader_rows text = (rows, ending) ->
  Forall (fun r => exists row, r = make_row fieldnames row) rows.
Proof.
  unfold DictReader_fieldnames, DictReader_rows.
  destruct (reader_rows (readlines text) parse_reset) as [[|f data] fl];
    simpl; [done|].
  intros [= ->] [= <- <-]. apply Forall_fmap, Forall_forall.
  intros row _. by exists row.
Qed.

(** A row whose header lacks a required column raises [KeyError] before
    anything else can fail. *)
Lemma create_from_row_KeyError fieldnames row :
  (exists k, k ∈ required_columns /\ k ∉ fieldnames) ->
  create_from_row (make_row fieldnames row) = Raise KeyError.
Proof.
  intros (k & Hk & Hnot). unfold create_from_row.
  destruct (decide (str "titulo" ∈ fieldnames)) as [H1|H1];
    [destruct (getitem_present _ row _ H1) as [c1 ->]
    |by rewrite (getitem_absent _ row _ H1)].
  destruct (decide (str "editora" ∈ fieldnames)) as [H2|H2];
    [destruct (getitem_present _ row _ H2) as [c2 ->]
    |by rewrite (getitem_absent _ row _ H2)].
  destruct (decide (str "foto" ∈ fieldnames)) as [H3|H3];
    [destruct (getitem_present _ row _ H3) as [c3 ->]
    |by rewrite (getitem_absent _ row _ H3)].
  destruct (decide (str "autores" ∈ fieldnames)) as [H4|H4];
    [|by rewrite (getitem_absent _ row _ H4)].
  exfalso. apply Hnot. unfold required_columns in Hk.
  repeat (apply elem_of_cons in Hk as [->|Hk]; [done|]).
  by apply elem_of_nil in Hk.
Qed.

End Rows.

(* ------------------------------------------------------------------ *)
(** ** The import loop *)

Section ImportLoop.

Implicit Types (w : World) (rows good rest : list (gmap pystr (option pystr)))
  (cs : list CreateObra).

Lemma append_all_store cs w :
  _obras (obras (append_all cs w).2)
  = _obras (obras w) ++ (append_all cs w).1
  /\ request_fields <$> (append_all cs w).1 = cs
  /\ tmpdir (append_all cs w).2 = tmpdir w
  /\ clock (append_all cs w).2 = clock w.
Proof.
  revert w. induction cs as [|c cs IH]; intros w.
  - simpl. by rewrite app_nil_r.
  - cbn [append_all]. rewrite append_eq.
    match goal with |- context [append_all cs ?w1] =>
      destruct (IH w1) as (H1 & H2 & H3 & H4);
      destruct (append_all cs w1) as [rs w2] end.
    cbn [fst snd] in *. cbn [with_store obras _obras tmpdir clock] in *.
    rewrite fmap_cons, H1, H2, H3, H4, <- app_assoc. by destruct c.
Qed.

Lemma upload_loop_good good cs rows ending (results : list Obra) w :
  Forall2 (fun row c => create_from_row row = Return c) good cs ->
  upload_loop (good ++ rows) ending results w
  = upload_loop rows ending (results ++ (append_all cs w).1)
      (append_all cs w).2.
Proof.
  intros H. revert results w.
  induction H as [|row c good cs Hrow _ IH]; intros results w.
  - simpl. by rewrite app_nil_r.
  - cbn [app upload_loop append_all]. unfold py_bind at 1, lift at 1.
    rewrite Hrow. unfold py_bind at 1. rewrite append_eq.
    rewrite IH. destruct (append_all cs _) as [rs w2]. simpl.
    by rewrite <- app_assoc.
Qed.

Lemma upload_loop_stops good cs row rest ending (e : PyExn) w :
  Forall2 (fun row c => create_from_row row = Return c) good cs ->
  create_from_row row = Raise e ->
  upload_loop (good ++ row :: rest) ending [] w
  = (Raise e, (append_all cs w).2).
Proof.
  intros Hgood Hrow. rewrite (upload_loop_good good cs _ _ _ _ Hgood).
  cbn [upload_loop]. unfold py_bind, lift. by rewrite Hrow.
Qed.

Lemma upload_loop_all good cs w :
  Forall2 (fun row c => create_from_row row = Return c) good cs ->
  upload_loop good (Return tt) [] w
  = (Return (append_all cs w).1, (append_all cs w).2).
Proof.
  intros Hgood.
  rewrite <- (app_nil_r good), (upload_loop_good good cs _ _ _ _ Hgood).
  reflexivity.
Qed.

End ImportLoop.

(* ------------------------------------------------------------------ *)
(** ** Import failures *)

Section ImportFailures.

Implicit Types (w : World) (file : pystr) (fieldnames : list pystr).


(** C5, as the specification states it, fails: an upload that consists of
    the header [titulo,editora,foto] alone lacks the column [autores], and
    the handler answers 200 with an empty list. *)
Lemma upload_header_only_counterexample :
  let file := str "titulo,editora,foto" ++ [LF] in
  let w := fresh_process ticking_clock in
  DictReader_fieldnames file = Some [str "titulo"; str "editora"; str "foto"]
  /\ str "autores" ∈ required_columns
  /\ (str "autores" ∉ [str "titulo"; str "editora"; str "foto"])
  /\ post_upload_obras file w = (Return [], w)
  /\ status_of (post_upload_obras file w).1 = Some 200.
Proof.
  split_and!; [reflexivity| | |reflexivity|reflexivity].
  - by_compute.
  - by_compute.
Qed.

(** C5 (amended): when the header of the upload lacks a required column,
    the state is left as it was; if the reader yields at least one
    non-blank data row, the handler answers 400 with the detail
    "CSV mal formatado!"; if the upload has no data row, the handler
    answers 200 with an empty list. *)
Theorem upload_missing_column file w fieldnames :
  DictReader_fieldnames file = Some fieldnames ->
  (exists k, k ∈ required_columns /\ k ∉ fieldnames) ->
  (post_upload_obras file w).2 = w
  /\ (forall rows ending,
        DictReader_rows file = (rows, ending) -> rows <> [] ->
        post_upload_obras file w
        = (Raise (HTTPException 400 csv_mal_formatado), w)
        /\ status_of (post_upload_obras file w).1 = Some 400)
  /\ (DictReader_rows file = ([], Return tt) ->
      post_upload_obras file w = (Return [], w)).
Proof.
  intros Hhead Hmiss.
  assert (Hrows : forall rows ending,
            DictReader_rows file = (rows, ending) -> rows <> [] ->
            post_upload_obras file w
            = (Raise (HTTPException 400 csv_mal_formatado), w)).
  { intros rows ending E Hne. unfold post_upload_obras. rewrite E.
    pose proof (DictReader_rows_made file fieldnames rows ending Hhead E) as Hm.
    destruct rows as [|r rows]; [done|].
    apply Forall_cons in Hm as [[row ->] _].
    unfold except_KeyError. cbn [upload_loop]. unfold py_bind, lift.
    by rewrite (create_from_row_KeyError fieldnames row Hmiss). }
  split_and!.
  - destruct (DictReader_rows file) as [[|r rows] ending] eqn:E.
    + unfold post_upload_obras. rewrite E. by destruct ending as [[]|[]|].
    + by rewrite (Hrows (r :: rows) ending).
  - intros rows ending E Hne. by rewrite (Hrows rows ending E Hne).
  - intros E. unfold post_upload_obras. by rewrite E.
Qed.

Lemma upload_missing_column_witness :
  let file := str "titulo,editora,foto" ++ [LF] ++ str "A,E,u" ++ [LF] in
  let w := fresh_process ticking_clock in
  post_upload_obras file w = (Raise (HTTPException 400 csv_mal_formatado), w).
Proof.
  intros file w.
  destruct (upload_missing_column file w
              [str "titulo"; str "editora"; str "foto"]) as (_ & H & _).
  - reflexivity.
  - exists (str "autores"). split; by_compute.
  - assert (Hlen : length (DictReader_rows file).1 = 1%nat)
      by (vm_compute; reflexivity).
    destruct (DictReader_rows file) as [rows ending] eqn:E.
    apply (H rows ending eq_refl).
    intros ->. discriminate Hlen.
Defined.



End ImportFailures.

(* ------------------------------------------------------------------ *)
(** ** The authors cell *)

Section AuthorsCell.

Implicit Types (s rest : pystr) (q c : N).


Lemma scan_items_space value n close s :
  scan_items value (S n) close (SPACE :: s) = scan_items value (S n) close s.
Proof. reflexivity. Qed.

Lemma scan_items_last value n c t v rest :
  skip_ws (c :: t ++ 93%N :: rest) = c :: t ++ 93%N :: rest ->
  (c =? 93)%N = false ->
  value (c :: t ++ 93%N :: rest) = Some (v, 93%N :: rest) ->
  scan_items value (S n) 93 (c :: t ++ 93%N :: rest) = Some ([v], false, rest).
Proof. intros Hs Hc Hv. cbn [scan_items]. by rewrite Hs, Hc, Hv. Qed.

Lemma scan_items_more value n c t v tail :
  skip_ws (c :: t ++ COMMA :: tail) = c :: t ++ COMMA :: tail ->
  (c =? 93)%N = false ->
  value (c :: t ++ COMMA :: tail) = Some (v, COMMA :: tail) ->
  scan_items value (S n) 93 (c :: t ++ COMMA :: tail)
  = match scan_items value n 93 tail with
    | Some (vs, _, s4) => Some (v :: vs, true, s4)
    | None => None
    end.
Proof. intros Hs Hc Hv. cbn [scan_items]. by rewrite Hs, Hc, Hv. Qed.

Lemma join_items_cons2 (x y : pystr) (l : list pystr) :
  join_items (x :: y :: l) = x ++ COMMA :: SPACE :: join_items (y :: l).
Proof. reflexivity. Qed.

(** Items that [value] reads one by one are read as a whole by
    [scan_items] when they are joined by a comma and a space. *)
Lemma scan_items_join (value : pystr -> option (PyValue * pystr))
    (tvs : list (pystr * PyValue)) (n : nat) rest :
  Forall (fun tv =>
            (exists c t, tv.1 = c :: t /\ c <> SPACE /\ c <> TAB /\ c <> 93%N)
            /\ forall rest, value (tv.1 ++ rest) = Some (tv.2, rest)) tvs ->
  (length tvs < n)%nat ->
  exists b, scan_items value n 93 (join_items tvs.*1 ++ 93%N :: rest)
            = Some (tvs.*2, b, rest).
Proof.
  intros H. revert n. induction H as [|[t v] tvs [(c & t' & Ht & Hc) Hv] Htvs IH];
    intros n Hn.
  - destruct n as [|n]; [lia|]. by exists false.
  - destruct n as [|n]; [simpl in Hn; lia|]. simpl in Ht, Hv. subst t.
    assert (Hskip : forall r, skip_ws (c :: r) = c :: r).
    { intros r. simpl. destruct Hc as (H1 & H2 & _).
      apply N.eqb_neq in H1, H2. by rewrite H1, H2. }
    assert (Hclose : (c =? 93)%N = false) by (apply N.eqb_neq; tauto).
    destruct tvs as [|tv2 tvs].
    + exists false. cbn [fmap list_fmap join_items fst snd app].
      apply scan_items_last; [apply Hskip|done|apply (Hv (93%N :: rest))].
    + destruct n as [|n]; [simpl in *; lia|].
      destruct (IH (S n)) as [b Hb]; [simpl in *; lia|].
      exists true. cbn [fmap list_fmap fst snd] in *.
      rewrite join_items_cons2, <- app_assoc. cbn [app].
      rewrite (scan_items_more value (S n) c t' v);
        [|apply Hskip|done|apply (Hv (COMMA :: SPACE :: _))].
      rewrite scan_items_space, Hb. reflexivity.
Qed.

Lemma join_items_length (items : list pystr) :
  Forall (fun t => t <> []) items ->
  (length items <= length (join_items items))%nat.
Proof.
  induction 1 as [|t items Ht _ IH]; [simpl; lia|].
  destruct t as [|c t]; [done|]. destruct items as [|t2 items].
  - simpl; lia.
  - rewrite join_items_cons2, length_app. cbn [length] in *.
    unfold pystr in *. lia.
Qed.

Lemma list_display_eval (tvs : list (pystr * PyValue)) :
  Forall (fun tv =>
            (exists c t, tv.1 = c :: t /\ c <> SPACE /\ c <> TAB /\ c <> 93%N)
            /\ forall rest, scan_value 7 (tv.1 ++ rest) = Some (tv.2, rest)) tvs ->
  literal_eval (Some (list_display tvs.*1)) = Return (PyList tvs.*2).
Proof.
  intros H. unfold literal_eval, list_display. cbn [app].
  change (capitalised_name (91%N :: ?s)) with false. cbv iota.
  change (scan_value 8 (91%N :: ?s))
    with (match scan_items (scan_value 7) (length s) 93 s with
          | Some (vs, _, rest) => Some (PyList vs, rest)
          | None => None
          end).
  destruct (scan_items_join (scan_value 7) tvs
              (length (join_items tvs.*1 ++ [93%N])) [] H) as [b ->]; [|done].
  rewrite length_app. simpl.
  assert (length tvs.*1 <= length (join_items tvs.*1))%nat.
  { apply join_items_length, Forall_fmap. eapply Forall_impl; [exact H|].
    intros [t0 v0] [(c & t & Ht & _) _]. cbn [fst] in Ht.
    unfold compose. cbn [fst]. rewrite Ht. discriminate. }
  rewrite length_fmap in *. lia.
Qed.

Lemma kept_items_text (l : list pystr) :
  Forall (fun s => has_surrogate s = false) l ->
  validate_items (PyStr <$> l) = Return l.
Proof.
  intros H. unfold validate_items.
  assert (existsb refused_item (PyStr <$> l) = false) as ->.
  { induction l as [|s l IH]; [done|]. apply Forall_cons in H as [Hs Hl].
    cbn. rewrite (IH Hl). unfold refused_item, validate_str_item.
    by rewrite Hs. }
  induction H as [|s l Hs _ IH]; [done|].
  cbn. rewrite Hs. cbn in IH. by rewrite IH.
Qed.








End AuthorsCell.

(* ------------------------------------------------------------------ *)
(** ** Lines and characters *)

Section LinesAndChars.

Implicit Types (text body t : pystr) (rd : ReaderObj) (ls : list pystr).

Lemma readlines_lines text :
  text = [] \/ last text = Some LF ->
  lines_ok (readlines text) /\ concat (readlines text) = text.
Proof.
  induction text as [|c t IH]; intros H; [by split; [constructor|]|].
  destruct H as [H|H]; [done|]. cbn [readlines].
  destruct (N.eqb_spec c LF) as [->|Hc].
  - destruct IH as [IH1 IH2].
    { destruct t; [by left|right]. by rewrite last_cons_cons in H. }
    split; [|by cbn; rewrite IH2].
    constructor; [|done]. exists []. split; [done|]. apply not_elem_of_nil.
  - destruct t as [|c' t']; [cbn in H; congruence|].
    destruct IH as [IH1 IH2]; [right; by rewrite last_cons_cons in H|].
    destruct (readlines (c' :: t')) as [|l ls]; [done|].
    apply Forall_cons in IH1 as [(body & -> & Hbody) Hls].
    split; [|by cbn in *; rewrite IH2].
    constructor; [|done]. exists (c :: body). split; [done|].
    rewrite not_elem_of_cons. split; [congruence|done].
Qed.

Lemma reader_chars_line body t rd :
  LF ∉ body ->
  reader_chars (body ++ LF :: t) rd
  = match parse_line (body ++ [LF]) rd with
    | Return rd' =>
        match rd_state rd' with
        | START_RECORD =>
            let (rows, ending) := reader_chars t parse_reset in
            (rd_fields rd' :: rows, ending)
        | _ => reader_chars t rd'
        end
    | Raise e => ([], Raise e)
    | Unmodelled => ([], Unmodelled)
    end.
Proof.
  revert rd. induction body as [|c body IH]; intros rd Hb.
  - cbn [app reader_chars parse_line]. unfold feed_char.
    change (LF =? 0)%N with false. change (LF =? LF)%N with true. cbv iota.
    destruct (parse_process_char rd (Some LF)) as [rd1|]; [|done].
    by destruct (parse_process_char rd1 None).
  - apply not_elem_of_cons in Hb as [Hc Hb].
    cbn [app reader_chars parse_line]. unfold feed_char.
    destruct (c =? 0)%N; [done|].
    destruct (parse_process_char rd (Some c)) as [rd1|]; [|done].
    assert ((c =? LF)%N = false) as -> by (apply N.eqb_neq; congruence).
    by apply IH.
Qed.

Lemma reader_rows_chars ls rd :
  lines_ok ls -> reader_rows ls rd = reader_chars (concat ls) rd.
Proof.
  intros H. revert rd. induction H as [|l ls (body & -> & Hb) _ IH]; intros rd.
  - reflexivity.
  - cbn [concat]. rewrite <- app_assoc. cbn [app].
    rewrite (reader_chars_line body (concat ls) rd Hb).
    cbn [reader_rows].
    destruct (parse_line (body ++ [LF]) rd) as [rd'| |]; [|done..].
    destruct (rd_state rd'); rewrite ?IH; done.
Qed.

End LinesAndChars.

(* ------------------------------------------------------------------ *)
(** ** Reading back what the writer wrote *)

Section CellsRead.

Implicit Types (x u acc t : pystr) (fs : list pystr) (c : N)
  (rd : ReaderObj).

Lemma reader_chars_step c t rd rd1 :
  (c =? 0)%N = false -> (c =? LF)%N = false ->
  parse_process_char rd (Some c) = Some rd1 ->
  reader_chars (c :: t) rd = reader_chars t rd1.
Proof.
  intros H0 Hlf Hp. cbn [reader_chars]. unfold feed_char.
  by rewrite H0, Hp, Hlf.
Qed.

Lemma reader_chars_lf_inside t rd rd1 rd2 :
  parse_process_char rd (Some LF) = Some rd1 ->
  parse_process_char rd1 None = Some rd2 ->
  rd_state rd2 = IN_QUOTED_FIELD ->
  reader_chars (LF :: t) rd = reader_chars t rd2.
Proof.
  intros H1 H2 Hs. cbn [reader_chars]. unfold feed_char.
  change (LF =? 0)%N with false. change (LF =? LF)%N with true. cbv iota.
  by rewrite H1, H2; cbn [csv_result]; rewrite Hs.
Qed.

Lemma reader_chars_lf_end t rd rd1 rd2 :
  parse_process_char rd (Some LF) = Some rd1 ->
  parse_process_char rd1 None = Some rd2 ->
  rd_state rd2 = START_RECORD ->
  reader_chars (LF :: t) rd
  = let (rows, ending) := reader_chars t parse_reset in
    (rd_fields rd2 :: rows, ending).
Proof.
  intros H1 H2 Hs. cbn [reader_chars]. unfold feed_char.
  change (LF =? 0)%N with false. change (LF =? LF)%N with true. cbv iota.
  by rewrite H1, H2; cbn [csv_result]; rewrite Hs.
Qed.

Lemma plain_field_char c :
  needs_quote c = false ->
  (c =? COMMA)%N = false /\ (c =? QUOTE)%N = false /\ is_nl c = false
  /\ (c =? LF)%N = false.
Proof.
  unfold needs_quote, is_nl. intros H.
  repeat (apply orb_false_iff in H as [H ?]).
  repeat match goal with H : _ = false |- _ => rewrite H; clear H end. done.
Qed.

Lemma has_nul_cons c u :
  has_nul (c :: u) = false -> (c =? 0)%N = false /\ has_nul u = false.
Proof.
  unfold has_nul. cbn [existsb]. rewrite (N.eqb_sym 0 c).
  by intros [? ?]%orb_false_iff.
Qed.

Lemma add_char_ok acc c fs st (n : nat) :
  Z.of_nat (length acc + S n) <= field_limit ->
  parse_add_char (mkReader st acc fs) c = Some (mkReader st (acc ++ [c]) fs).
Proof.
  intros H. unfold parse_add_char. cbn [rd_field rd_state rd_fields].
  destruct (Z.geb_spec (Z.of_nat (length acc)) field_limit); [lia|done].
Qed.

(** Leading spaces of a field are dropped. *)
Lemma rc_skip_spaces u t fs :
  reader_chars (u ++ t) (mkReader START_FIELD [] fs)
  = reader_chars (skip_spaces u ++ t) (mkReader START_FIELD [] fs).
Proof.
  induction u as [|c u IH]; [done|]. cbn [skip_spaces].
  destruct (N.eqb_spec c SPACE) as [->|]; [|done]. cbn [app].
  by rewrite (reader_chars_step SPACE _ _ (mkReader START_FIELD [] fs)).
Qed.

(** The characters of an unquoted field are appended one by one. *)
Lemma rc_in_field u acc t fs :
  existsb needs_quote u = false -> has_nul u = false ->
  Z.of_nat (length (acc ++ u)) <= field_limit ->
  reader_chars (u ++ t) (mkReader IN_FIELD acc fs)
  = reader_chars t (mkReader IN_FIELD (acc ++ u) fs).
Proof.
  revert acc. induction u as [|c u IH]; intros acc Hq Hn Hl.
  - by rewrite app_nil_r.
  - cbn [existsb] in Hq. apply orb_false_iff in Hq as [Hc Hq].
    apply has_nul_cons in Hn as [Hc0 Hn].
    destruct (plain_field_char c Hc) as (H1 & H2 & H3 & H4).
    rewrite length_app in Hl. cbn [length] in Hl.
    cbn [app].
    rewrite (reader_chars_step c _ _ (mkReader IN_FIELD (acc ++ [c]) fs)).
    + rewrite IH; [by rewrite <- app_assoc|done|done|].
      rewrite <- app_assoc, length_app. cbn [app length]. lia.
    + done.
    + done.
    + unfold parse_process_char. cbn [rd_state]. rewrite H3, H1.
      by apply (add_char_ok acc c fs IN_FIELD (length u)).
Qed.

(** The characters between the quotes of a quoted field, its quotes
    doubled, are appended one by one; a line feed among them ends a line
    without ending the record. *)
Lemma rc_in_quoted u acc t fs :
  has_nul u = false ->
  Z.of_nat (length (acc ++ u)) <= field_limit ->
  reader_chars (double_quotes u ++ t) (mkReader IN_QUOTED_FIELD acc fs)
  = reader_chars t (mkReader IN_QUOTED_FIELD (acc ++ u) fs).
Proof.
  revert acc. induction u as [|c u IH]; intros acc Hn Hl.
  - by rewrite app_nil_r.
  - apply has_nul_cons in Hn as [Hc0 Hn].
    rewrite length_app in Hl. cbn [length] in Hl.
    assert (Hrest : Z.of_nat (length ((acc ++ [c]) ++ u)) <= field_limit).
    { rewrite <- app_assoc, length_app. cbn [app length]. lia. }
    assert (Hadd : forall st, parse_add_char (mkReader st acc fs) c
                              = Some (mkReader st (acc ++ [c]) fs))
      by (intros st; by apply (add_char_ok acc c fs st (length u))).
    cbn [double_quotes]. destruct (N.eqb_spec c QUOTE) as [->|Hq].
    + cbn [app].
      rewrite (reader_chars_step QUOTE _ _
                 (mkReader QUOTE_IN_QUOTED_FIELD acc fs)); [|done..].
      rewrite (reader_chars_step QUOTE _ _
                 (mkReader IN_QUOTED_FIELD (acc ++ [QUOTE]) fs)); [|done|done|].
      * rewrite IH; [by rewrite <- app_assoc|done|done].
      * unfold parse_process_char. cbn [rd_state].
        change (QUOTE =? QUOTE)%N with true. cbv iota.
        by rewrite (Hadd QUOTE_IN_QUOTED_FIELD).
    + apply N.eqb_neq in Hq. cbn [app].
      assert (Hp : parse_process_char (mkReader IN_QUOTED_FIELD acc fs) (Some c)
                   = Some (mkReader IN_QUOTED_FIELD (acc ++ [c]) fs)).
      { unfold parse_process_char. cbn [rd_state]. rewrite Hq. apply Hadd. }
      destruct (N.eqb_spec c LF) as [->|Hlf].
      * rewrite (reader_chars_lf_inside _ _ _ _ Hp eq_refl eq_refl).
        rewrite IH; [by rewrite <- app_assoc|done|done].
      * apply N.eqb_neq in Hlf.
        rewrite (reader_chars_step c _ _ _ Hc0 Hlf Hp).
        rewrite IH; [by rewrite <- app_assoc|done|done].
Qed.

Lemma skip_spaces_suffix u : exists sp, u = sp ++ skip_spaces u.
Proof.
  induction u as [|c u [sp IH]]; [by exists []|]. cbn [skip_spaces].
  destruct (c =? SPACE)%N; [|by exists []].
  exists (c :: sp). cbn [app]. by rewrite <- IH.
Qed.

Lemma skip_spaces_head u c u' :
  skip_spaces u = c :: u' -> (c =? SPACE)%N = false.
Proof.
  induction u as [|a u IH]; [done|]. cbn [skip_spaces].
  destruct (a =? SPACE)%N eqn:E; [done|]. by intros [= <- _].
Qed.

Lemma existsb_suffix {A} (f : A -> bool) (l1 l2 : list A) :
  existsb f (l1 ++ l2) = false -> existsb f l2 = false.
Proof. rewrite existsb_app. by intros [_ ?]%orb_false_iff. Qed.

(** The characters of a written field, read from the start of a field. *)
Lemma rc_field x t fs :
  field_ok x = true ->
  reader_chars (join_append x ++ t) (mkReader START_FIELD [] fs)
  = reader_chars t (after_field x fs).
Proof.
  unfold field_ok. intros [Hn Hl]%andb_true_iff.
  apply negb_true_iff in Hn. apply Z.leb_le in Hl.
  unfold join_append, after_field.
  destruct (existsb needs_quote x) eqn:Hq.
  - cbn [app]. rewrite <- app_assoc. cbn [app].
    rewrite (reader_chars_step QUOTE _ _ (mkReader IN_QUOTED_FIELD [] fs));
      [|done..].
    rewrite (rc_in_quoted x [] _ fs Hn Hl). cbn [app].
    by rewrite (reader_chars_step QUOTE _ _
                  (mkReader QUOTE_IN_QUOTED_FIELD x fs)).
  - rewrite rc_skip_spaces.
    destruct (skip_spaces_suffix x) as [sp Hsp].
    assert (Hq' : existsb needs_quote (skip_spaces x) = false)
      by (apply (existsb_suffix _ sp); by rewrite <- Hsp).
    assert (Hn' : has_nul (skip_spaces x) = false)
      by (apply (existsb_suffix _ sp); fold (has_nul (sp ++ skip_spaces x));
          by rewrite <- Hsp).
    assert (Hl' : Z.of_nat (length (skip_spaces x)) <= field_limit).
    { rewrite Hsp, length_app in Hl. lia. }
    destruct (skip_spaces x) as [|c u] eqn:E; [done|].
    pose proof (skip_spaces_head x c u E) as Hsp'.
    cbn [existsb] in Hq'. apply orb_false_iff in Hq' as [Hc Hq'].
    apply has_nul_cons in Hn' as [Hc0 Hn'].
    destruct (plain_field_char c Hc) as (H1 & H2 & H3 & H4).
    cbn [app].
    rewrite (reader_chars_step c _ _ (mkReader IN_FIELD [c] fs)); [|done..|].
    + by rewrite (rc_in_field u [c] t fs Hq' Hn' Hl').
    + unfold parse_process_char, start_field. cbn [rd_state].
      rewrite H3, H2, Hsp', H1.
      cbn [length] in Hl'.
      by rewrite (add_char_ok [] c fs START_FIELD (length u)).
Qed.

(** The comma after a field saves the field. *)
Lemma rc_comma x t fs :
  reader_chars (COMMA :: t) (after_field x fs)
  = reader_chars t (mkReader START_FIELD [] (fs ++ [read_back x])).
Proof.
  unfold after_field, read_back. destruct (existsb needs_quote x).
  - by rewrite (reader_chars_step COMMA _ _
                  (mkReader START_FIELD [] (fs ++ [x]))).
  - destruct (skip_spaces x) as [|c u].
    + by rewrite (reader_chars_step COMMA _ _
                    (mkReader START_FIELD [] (fs ++ [[]]))).
    + by rewrite (reader_chars_step COMMA _ _
                    (mkReader START_FIELD [] (fs ++ [c :: u]))).
Qed.

(** The line terminator after a field saves the field and ends the
    record. *)
Lemma rc_crlf x t fs :
  reader_chars (CR :: LF :: t) (after_field x fs)
  = let (rows, ending) := reader_chars t parse_reset in
    ((fs ++ [read_back x]) :: rows, ending).
Proof.
  assert (H : forall field,
            reader_chars (LF :: t) (mkReader EAT_CRNL [] (fs ++ [field]))
            = let (rows, ending) := reader_chars t parse_reset in
              ((fs ++ [field]) :: rows, ending)).
  { intros field. by rewrite (reader_chars_lf_end t _
                                (mkReader EAT_CRNL [] (fs ++ [field]))
                                (mkReader START_RECORD [] (fs ++ [field]))). }
  unfold after_field, read_back. destruct (existsb needs_quote x).
  - rewrite (reader_chars_step CR _ _ (mkReader EAT_CRNL [] (fs ++ [x])));
      [apply H|done..].
  - destruct (skip_spaces x) as [|c u].
    + rewrite (reader_chars_step CR _ _ (mkReader EAT_CRNL [] (fs ++ [[]])));
        [apply H|done..].
    + rewrite (reader_chars_step CR _ _
                 (mkReader EAT_CRNL [] (fs ++ [c :: u]))); [apply H|done..].
Qed.

Lemma join_fields_cons2 x y (xs : list pystr) :
  join_fields (x :: y :: xs) = join_append x ++ COMMA :: join_fields (y :: xs).
Proof. reflexivity. Qed.

(** A written record, read from the start of its first field. *)
Lemma rc_record (xs : list pystr) t fs :
  xs <> [] -> forallb field_ok xs = true ->
  reader_chars (join_fields xs ++ CR :: LF :: t) (mkReader START_FIELD [] fs)
  = let (rows, ending) := reader_chars t parse_reset in
    ((fs ++ (read_back <$> xs)) :: rows, ending).
Proof.
  intros Hne. revert fs. induction xs as [|x xs IH]; [done|]. intros fs Hok.
  cbn [forallb] in Hok. apply andb_true_iff in Hok as [Hx Hok].
  destruct xs as [|y xs].
  - cbn [join_fields]. rewrite (rc_field x _ fs Hx). apply rc_crlf.
  - rewrite join_fields_cons2, <- app_assoc. cbn [app].
    rewrite (rc_field x _ fs Hx), rc_comma, IH; [|done|done].
    rewrite fmap_cons, <- app_assoc. reflexivity.
Qed.

Lemma rc_start c t :
  is_nl c = false ->
  reader_chars (c :: t) parse_reset
  = reader_chars (c :: t) (mkReader START_FIELD [] []).
Proof.
  intros H. cbn [reader_chars]. unfold feed_char, parse_process_char.
  cbn [rd_state parse_reset]. by rewrite H.
Qed.

Lemma record_head x y (xs : list pystr) t :
  exists c rest, join_fields (x :: y :: xs) ++ t = c :: rest
                 /\ is_nl c = false.
Proof.
  rewrite join_fields_cons2. unfold join_append.
  destruct (existsb needs_quote x) eqn:Hq.
  - by eexists _, _.
  - destruct x as [|c x]; [by eexists _, _|].
    cbn [existsb] in Hq. apply orb_false_iff in Hq as [Hc _].
    destruct (plain_field_char c Hc) as (_ & _ & H3 & _).
    by eexists _, _.
Qed.

(** The written records of a document, read back. *)
Lemma rc_document (records : list (list pystr)) :
  Forall (fun xs => (2 <= length xs)%nat /\ forallb field_ok xs = true)
    records ->
  reader_chars (concat (record_text <$> records)) parse_reset
  = ((fun xs : list pystr => read_back <$> xs) <$> records, Return tt).
Proof.
  induction 1 as [|xs records [Hlen Hok] _ IH]; [done|].
  rewrite fmap_cons. cbn [concat]. unfold record_text at 1.
  rewrite <- app_assoc. cbn [app].
  destruct xs as [|x [|y xs]]; [simpl in Hlen; lia..|].
  destruct (record_head x y xs (CR :: LF :: concat (record_text <$> records)))
    as (c & rest & E & Hc).
  rewrite E, (rc_start c rest Hc), <- E.
  rewrite (rc_record (x :: y :: xs) _ [] ltac:(done) Hok), IH.
  reflexivity.
Qed.

Lemma document_last (records : list (list pystr)) :
  records <> [] -> last (concat (record_text <$> records)) = Some LF.
Proof.
  induction records as [|xs records IH]; [done|]. intros _.
  rewrite fmap_cons. cbn [concat]. rewrite last_app.
  destruct records as [|ys records].
  - cbn [fmap list_fmap concat last]. unfold record_text.
    change [CR; LF] with ([CR] ++ [LF]). by rewrite app_assoc, last_snoc.
  - by rewrite IH.
Qed.

(** What the reader of the import yields on a written document. *)
Lemma reader_rows_document (records : list (list pystr)) :
  Forall (fun xs => (2 <= length xs)%nat /\ forallb field_ok xs = true)
    records ->
  reader_rows (readlines (concat (record_text <$> records))) parse_reset
  = ((fun xs : list pystr => read_back <$> xs) <$> records, Return tt).
Proof.
  intros H.
  destruct (readlines_lines (concat (record_text <$> records))) as [H1 H2].
  { destruct records; [by left|right]. by apply document_last. }
  rewrite (reader_rows_chars _ _ H1), H2. by apply rc_document.
Qed.

End CellsRead.

(* ------------------------------------------------------------------ *)
(** ** repr and the string literal *)

Section ReprScan.

Implicit Types (s t rest : pystr) (q c d : N) (printable : N -> bool).

Lemma hex_value_digit d : (d < 16)%N -> hex_value (hex_digit d) = Some d.
Proof.
  intros H. unfold hex_digit, hex_value, is_digit.
  destruct (N.ltb_spec d 10).
  - replace ((48 <=? 48 + d)%N && (48 + d <=? 57)%N) with true
      by (symmetry; apply andb_true_intro; split; apply N.leb_le; lia).
    f_equal. lia.
  - replace ((48 <=? 87 + d)%N && (87 + d <=? 57)%N) with false
      by (symmetry; apply andb_false_intro2, N.leb_gt; lia).
    replace ((97 <=? 87 + d)%N && (87 + d <=? 102)%N) with true
      by (symmetry; apply andb_true_intro; split; apply N.leb_le; lia).
    f_equal. lia.
Qed.

Lemma hex_number_snoc (ds : list N) d (acc : N) :
  hex_number (ds ++ [d]) acc
  = match hex_number ds acc with
    | Some v =>
        match hex_value d with
        | Some x => Some (16 * v + x)%N
        | None => None
        end
    | None => None
    end.
Proof.
  revert acc. induction ds as [|a ds IH]; intros acc; simpl.
  - by destruct (hex_value d).
  - destruct (hex_value a); [apply IH|done].
Qed.

Lemma hex_digits_number (w : nat) (n : N) :
  hex_number (hex_digits w n) 0 = Some (n mod 16 ^ N.of_nat w)%N.
Proof.
  revert n. induction w as [|w IH]; intros n.
  - simpl. by rewrite N.mod_1_r.
  - cbn [hex_digits]. rewrite hex_number_snoc, IH, hex_value_digit
      by (apply N.mod_lt; lia).
    f_equal. rewrite Nat2N.inj_succ, N.pow_succ_r'.
    rewrite N.Div0.mod_mul_r. lia.
Qed.

Lemma hex_digits_exact (w : nat) (n : N) :
  (n < 16 ^ N.of_nat w)%N -> hex_number (hex_digits w n) 0 = Some n.
Proof. intros H. by rewrite hex_digits_number, N.mod_small. Qed.

Lemma cons_to_eq (r : option (pystr * pystr)) c :
  match r with Some (body, rest) => Some (c :: body, rest) | None => None end
  = (fun br : pystr * pystr => (c :: br.1, br.2)) <$> r.
Proof. by destruct r as [[??]|]. Qed.

Lemma scan_escape_x q (h1 h2 v : N) t :
  q = APOSTROPHE \/ q = QUOTE ->
  hex_number [h1; h2] 0 = Some v ->
  scan_string q (BACKSLASH :: 120%N :: h1 :: h2 :: t)
  = match scan_string q t with
    | Some (body, rest) => Some (v :: body, rest)
    | None => None
    end.
Proof.
  intros Hq E. cbn [scan_string].
  destruct Hq as [-> | ->]; cbn -[hex_number scan_string]; by rewrite E.
Qed.

Lemma scan_escape_u q (h1 h2 h3 h4 v : N) t :
  q = APOSTROPHE \/ q = QUOTE ->
  hex_number [h1; h2; h3; h4] 0 = Some v ->
  scan_string q (BACKSLASH :: 117%N :: h1 :: h2 :: h3 :: h4 :: t)
  = match scan_string q t with
    | Some (body, rest) => Some (v :: body, rest)
    | None => None
    end.
Proof.
  intros Hq E. cbn [scan_string].
  destruct Hq as [-> | ->]; cbn -[hex_number scan_string]; by rewrite E.
Qed.

Lemma scan_escape_U q (h1 h2 h3 h4 h5 h6 h7 h8 v : N) t :
  q = APOSTROPHE \/ q = QUOTE ->
  hex_number [h1; h2; h3; h4; h5; h6; h7; h8] 0 = Some v ->
  (v <= 1114111)%N ->
  scan_string q
    (BACKSLASH :: 85%N :: h1 :: h2 :: h3 :: h4 :: h5 :: h6 :: h7 :: h8 :: t)
  = match scan_string q t with
    | Some (body, rest) => Some (v :: body, rest)
    | None => None
    end.
Proof.
  intros Hq E Hv. apply N.leb_le in Hv. cbn [scan_string].
  destruct Hq as [-> | ->]; cbn -[hex_number scan_string N.leb];
    by rewrite E, Hv.
Qed.

(** The scanner reads back each character as [repr] writes it. *)
Lemma scan_repr_char printable q c t :
  q = APOSTROPHE \/ q = QUOTE ->
  encodable c = true ->
  scan_string q (repr_char printable q c ++ t)
  = (fun br : pystr * pystr => (c :: br.1, br.2)) <$> scan_string q t.
Proof.
  intros Hq He. rewrite <- cons_to_eq.
  unfold encodable in He. apply andb_true_iff in He as [Hsur Hmax].
  apply negb_true_iff in Hsur. apply N.leb_le in Hmax.
  assert (Hplain : (SPACE <= c)%N -> c <> 127%N -> c <> q -> c <> BACKSLASH ->
            scan_string q (c :: t)
            = match scan_string q t with
              | Some (body, rest) => Some (c :: body, rest)
              | None => None
              end).
  { intros H1 H2 H3 H4. cbn [scan_string].
    apply N.eqb_neq in H2, H3, H4. rewrite H3, H4.
    unfold plain_char. rewrite Hsur, H2, H3, H4.
    apply N.leb_le in H1, Hmax. by rewrite H1, Hmax. }
  assert (Hx : (c < 256)%N ->
            scan_string q (BACKSLASH :: 120%N :: hex_digits 2 c ++ t)
            = match scan_string q t with
              | Some (body, rest) => Some (c :: body, rest)
              | None => None
              end).
  { intros H. pose proof (hex_digits_exact 2 c H) as E.
    cbn [hex_digits app] in *. by apply scan_escape_x. }
  assert (Hu : (c < 65536)%N ->
            scan_string q (BACKSLASH :: 117%N :: hex_digits 4 c ++ t)
            = match scan_string q t with
              | Some (body, rest) => Some (c :: body, rest)
              | None => None
              end).
  { intros H. pose proof (hex_digits_exact 4 c H) as E.
    cbn [hex_digits app] in *. by apply scan_escape_u. }
  assert (HU : scan_string q (BACKSLASH :: 85%N :: hex_digits 8 c ++ t)
               = match scan_string q t with
                 | Some (body, rest) => Some (c :: body, rest)
                 | None => None
                 end).
  { assert (H : (c < 16 ^ N.of_nat 8)%N) by (simpl; lia).
    pose proof (hex_digits_exact 8 c H) as E.
    cbn [hex_digits app] in *. by apply scan_escape_U. }
  unfold repr_char.
  destruct (N.eqb_spec c q) as [->|Hcq].
  { cbn [orb app]. destruct Hq as [-> | ->]; reflexivity. }
  destruct (N.eqb_spec c BACKSLASH) as [->|Hcb].
  { cbn [orb app]. destruct Hq as [-> | ->]; reflexivity. }
  cbn [orb].
  destruct (N.eqb_spec c TAB) as [->|Htab].
  { destruct Hq as [-> | ->]; reflexivity. }
  destruct (N.eqb_spec c LF) as [->|Hlf].
  { destruct Hq as [-> | ->]; reflexivity. }
  destruct (N.eqb_spec c CR) as [->|Hcr].
  { destruct Hq as [-> | ->]; reflexivity. }
  destruct (N.ltb_spec c SPACE) as [Hlow|Hlow].
  { apply Hx. unfold SPACE in Hlow. lia. }
  destruct (N.eqb_spec c 127) as [->|Hdel].
  { by apply Hx. }
  cbn [orb].
  destruct (N.ltb_spec c 127) as [Hasc|Hasc]; [by apply Hplain|].
  destruct (printable c); [by apply Hplain|].
  destruct (N.leb_spec c 255); [apply Hx; lia|].
  destruct (N.leb_spec c 65535); [apply Hu; lia|].
  apply HU.
Qed.

Lemma scan_repr printable (n : nat) s rest :
  forallb encodable s = true ->
  scan_value (S n) (repr printable s ++ rest) = Some (PyStr s, rest).
Proof.
  intros H. unfold repr.
  assert (Hq : repr_quote s = APOSTROPHE \/ repr_quote s = QUOTE)
    by (unfold repr_quote; destruct (_ && _); auto).
  set (q := repr_quote s) in *.
  assert (E : scan_string q (flat_map (repr_char printable q) s ++ q :: rest)
              = Some (s, rest)).
  { clearbody q. induction s as [|c s IH].
    - cbn. by rewrite N.eqb_refl.
    - cbn [forallb] in H. apply andb_true_iff in H as [Hc Hs].
      cbn [flat_map]. rewrite <- app_assoc.
      by rewrite (scan_repr_char printable q c _ Hq Hc), (IH Hs). }
  cbn [app]. rewrite <- app_assoc. cbn [app scan_value].
  rewrite E. by destruct Hq as [-> | ->].
Qed.

End ReprScan.

(* ------------------------------------------------------------------ *)
(** ** The exported document *)

Section ExportDocument.

Implicit Types (w : World) (f : positive) (rs : list Obra) (x : pystr).

Lemma filter_none (l : list Obra) : filter_comprehension None l = Return l.
Proof. induction l as [|r l IH]; [done|]. cbn. by rewrite IH. Qed.

Lemma cell_ok_parts x :
  cell_ok x = true ->
  has_nul x = false /\ forallb encodable x = true /\ field_ok x = true.
Proof.
  unfold cell_ok, field_ok.
  intros [[H1 H2]%andb_true_iff H3]%andb_true_iff.
  apply negb_true_iff in H1. by rewrite H1, H2, H3.
Qed.

Lemma cells_field_ok (xs : list pystr) :
  forallb cell_ok xs = true -> forallb field_ok xs = true.
Proof.
  induction xs as [|x xs IH]; [done|]. cbn [forallb].
  intros [Hx Hxs]%andb_true_iff. destruct (cell_ok_parts x Hx) as (_ & _ & ->).
  by apply IH.
Qed.

Lemma double_quotes_encodable x :
  forallb encodable x = true -> forallb encodable (double_quotes x) = true.
Proof.
  induction x as [|c x IH]; [done|]. cbn [forallb double_quotes].
  intros [Hc Hx]%andb_true_iff.
  destruct (N.eqb_spec c QUOTE) as [->|]; cbn [forallb];
    rewrite ?Hc, (IH Hx); done.
Qed.

Lemma join_append_encodable x :
  forallb encodable x = true -> forallb encodable (join_append x) = true.
Proof.
  intros H. unfold join_append. destruct (existsb needs_quote x); [|done].
  cbn [forallb]. rewrite forallb_app, (double_quotes_encodable x H). done.
Qed.

Lemma record_text_encodable (xs : list pystr) :
  forallb cell_ok xs = true -> forallb encodable (record_text xs) = true.
Proof.
  intros H. unfold record_text. rewrite forallb_app.
  apply andb_true_intro. split; [|done].
  induction xs as [|x xs IH]; [done|]. cbn [forallb] in H.
  apply andb_true_iff in H as [Hx Hxs].
  destruct (cell_ok_parts x Hx) as (_ & He & _).
  destruct xs as [|y xs]; [by apply join_append_encodable|].
  rewrite join_fields_cons2, forallb_app, (join_append_encodable x He).
  cbn [forallb andb]. change (encodable COMMA) with true. by apply IH.
Qed.

Lemma writerow_ok (x y : pystr) (xs : list pystr) :
  forallb cell_ok (x :: y :: xs) = true ->
  writerow (x :: y :: xs) = Return (record_text (x :: y :: xs)).
Proof.
  intros H. unfold writerow.
  assert (existsb has_nul (x :: y :: xs) = false) as ->; [|by destruct x].
  induction (x :: y :: xs) as [|a l IH]; [done|]. cbn [forallb] in H.
  apply andb_true_iff in H as [Ha Hl].
  destruct (cell_ok_parts a Ha) as (Hn & _ & _).
  cbn [existsb]. by rewrite Hn, (IH Hl).
Qed.

Lemma writerow_cells (printable : N -> bool) (r : Obra) :
  forallb cell_ok (row_cells printable r) = true ->
  writerow (row_cells printable r)
  = Return (record_text (row_cells printable r)).
Proof. apply writerow_ok. Qed.

Lemma file_write_ok f (text content : pystr) w :
  forallb encodable text = true ->
  tmpdir w !! f = Some content ->
  file_write f text w
  = (Return tt, with_tmpdir w (<[f := content ++ text]> (tmpdir w))).
Proof.
  intros H E. unfold file_write. rewrite H. unfold pystr in *.
  by rewrite E.
Qed.

Lemma writerows_cons f r rs w :
  writerows f (r :: rs) w
  = match writerow (row_cells (isprintable w) r) with
    | Return record =>
        match file_write f record w with
        | (Return _, w') => writerows f rs w'
        | (Raise e, w') => (Raise e, w')
        | (Unmodelled, w') => (Unmodelled, w')
        end
    | Raise e => (Raise e, w)
    | Unmodelled => (Unmodelled, w)
    end.
Proof. reflexivity. Qed.

Lemma writerows_ok f rs (content : pystr) w :
  tmpdir w !! f = Some content ->
  Forall (fun r => forallb cell_ok (row_cells (isprintable w) r) = true) rs ->
  writerows f rs w
  = (Return tt,
     with_tmpdir w
       (<[f := content
               ++ concat (record_text <$> (row_cells (isprintable w) <$> rs))]>
          (tmpdir w))).
Proof.
  intros E H. revert content w E H.
  induction rs as [|r rs IH]; intros content w E H.
  - cbn. rewrite app_nil_r, insert_id by done. by destruct w.
  - apply Forall_cons in H as [Hr Hrs].
    rewrite writerows_cons, (writerow_cells _ _ Hr).
    rewrite (file_write_ok f _ content w (record_text_encodable _ Hr) E).
    rewrite (IH (content ++ record_text (row_cells (isprintable w) r)));
      [|by cbn; rewrite lookup_insert_eq|done].
    unfold with_tmpdir. cbn [obras clock reads tmpdir isprintable].
    rewrite insert_insert_eq, !fmap_cons. cbn [concat].
    by rewrite <- app_assoc.
Qed.

(** When every cell of every row can be written, the handler writes the
    document into a new file and answers with it. *)
Lemma get_file_obras_ok w :
  _obras (obras w) <> [] ->
  Forall (fun r => forallb cell_ok (row_cells (isprintable w) r) = true)
    (_obras (obras w)) ->
  let f := fresh (dom (tmpdir w)) in
  tmpdir w !! f = None
  /\ get_file_obras None w
     = (Return {| path := f; media_type := str "text/csv";
                  filename := str "obras.csv"; background := Some f |},
        with_tmpdir w
          (<[f := document (isprintable w) (_obras (obras w))]> (tmpdir w))).
Proof.
  intros Hne H f.
  assert (Hf : tmpdir w !! f = None)
    by (apply not_elem_of_dom, is_fresh).
  split; [done|].
  unfold get_file_obras, py_bind at 1, get_all_as_dict_filtered.
  rewrite filter_none. destruct (_obras (obras w)) as [|r rs] eqn:E; [done|].
  unfold py_bind at 1, NamedTemporaryFile. fold f.
  unfold py_bind at 1, writeheader, py_bind at 1, lift.
  change (writerow Obra_keys) with (Return (A:=pystr) (record_text Obra_keys)).
  cbv iota.
  match goal with |- context [file_write f ?t ?w1] =>
    rewrite (file_write_ok f t [] w1 eq_refl)
      by (cbn; by rewrite lookup_insert_eq) end.
  unfold py_bind.
  match goal with |- context [writerows f ?l ?w1] =>
    rewrite (writerows_ok f l ([] ++ record_text Obra_keys) w1);
      [|by cbn; rewrite lookup_insert_eq|done] end.
  unfold py_ret, with_tmpdir, document, document_records.
  cbn [obras clock reads tmpdir isprintable].
  rewrite !insert_insert_eq, fmap_cons. reflexivity.
Qed.

End ExportDocument.

(* ------------------------------------------------------------------ *)
(** ** The temporary file *)

Section TempFile.

Implicit Types (w : World).

(** On the path that completes, the background task removes the file:
    after the request the directory holds the files it held before. *)
Lemma serve_file_obras_removes_file w :
  _obras (obras w) <> [] ->
  Forall (fun r => forallb cell_ok (row_cells (isprintable w) r) = true)
    (_obras (obras w)) ->
  serve_file_obras None w
  = (Some 200, Some (document (isprintable w) (_obras (obras w))), w).
Proof.
  intros Hne H. destruct (get_file_obras_ok w Hne H) as [Hf E].
  unfold serve_file_obras. rewrite E. cbn [background path].
  unfold cleanup, with_tmpdir. cbn [tmpdir obras clock reads isprintable].
  rewrite lookup_insert_eq. cbn [snd].
  rewrite delete_insert_eq, delete_id by done. by destruct w.
Qed.

(** C9 does not hold of the code: when writing the rows fails, here on a
    title with a lone surrogate, which UTF-8 does not encode, the handler
    leaves the [with] block by the exception, no response and no
    background task exist, the request is answered with status 500, and
    the file that the request created stays in the directory. *)
Theorem file_obras_write_error_leaves_file :
  let obra := {| c_titulo := [0xD800%N]; c_editora := str "E";
                 c_foto := str "u"; c_autores := [str "X"] |} in
  let w := run_ops [OpAppend sample_obra; OpAppend obra]
             (fresh_process ticking_clock) in
  exists f w',
    get_file_obras None w = (Raise UnicodeEncodeError, w')
    /\ serve_file_obras None w = (Some 500, None, w')
    /\ tmpdir w !! f = None
    /\ tmpdir w' !! f
       = Some (record_text Obra_keys
               ++ record_text (row_cells (isprintable w)
                                 {| titulo := str "A"; editora := str "E";
                                    foto := str "u"; autores := [str "X"];
                                    id := 1;
                                    created_at := ticking_clock 1;
                                    updated_at := ticking_clock 0 |})).
Proof.
  intros obra w. exists (fresh (dom (tmpdir w))).
  destruct (get_file_obras None w) as [res w'] eqn:E.
  assert (E2 : serve_file_obras None w
               = match res with
                 | Return response => serve_file_obras None w
                 | _ => (status_of res, None, w')
                 end).
  { unfold serve_file_obras. rewrite E. by destruct res. }
  vm_compute in E. injection E as <- <-.
  eexists. split_and!; [reflexivity|rewrite E2; reflexivity|reflexivity|].
  vm_compute. reflexivity.
Qed.

End TempFile.

(* ------------------------------------------------------------------ *)
(** ** Importing an exported document *)

Section RoundTrip.

Implicit Types (w : World) (rs : list Obra) (x : pystr) (r : Obra)
  (printable : N -> bool).

Lemma exported_row_items (c1 c2 c3 c4 c5 c6 c7 : pystr) :
  let d := make_row Obra_keys [c1; c2; c3; c4; c5; c6; c7] in
  getitem d (str "titulo") = Return (Some c1)
  /\ getitem d (str "editora") = Return (Some c2)
  /\ getitem d (str "foto") = Return (Some c3)
  /\ getitem d (str "autores") = Return (Some c4).
Proof. intros d. split_and!; vm_compute; reflexivity. Qed.

Lemma read_back_keeps x : keeps_leading x = true -> read_back x = x.
Proof.
  unfold keeps_leading, read_back. destruct (existsb needs_quote x); [done|].
  destruct x as [|c x]; [done|]. cbn [orb skip_spaces].
  by intros ->%negb_true_iff.
Qed.

Lemma str_list_eval printable (l : list pystr) :
  forallb (forallb encodable) l = true ->
  literal_eval (Some (str_list printable l)) = Return (PyList (PyStr <$> l)).
Proof.
  intros H. unfold str_list.
  pose (tvs := (fun a : pystr => (repr printable a, PyStr a)) <$> l).
  assert (E1 : tvs.*1 = repr printable <$> l).
  { unfold tvs. rewrite <- list_fmap_compose. by apply list_fmap_ext. }
  assert (E2 : tvs.*2 = PyStr <$> l).
  { unfold tvs. rewrite <- list_fmap_compose. by apply list_fmap_ext. }
  rewrite <- E1, <- E2. apply list_display_eval. unfold tvs.
  apply Forall_fmap, Forall_forall. intros a Ha.
  assert (Hea : forallb encodable a = true).
  { rewrite forallb_forall in H. apply H. by apply list_elem_of_In. }
  unfold compose. cbn [fst snd]. split.
  - unfold repr. eexists _, _. split; [reflexivity|].
    unfold repr_quote. destruct (_ && _); by vm_compute.
  - intros rest. by apply (scan_repr printable 6).
Qed.

Lemma encodable_no_surrogate (a : pystr) :
  forallb encodable a = true -> has_surrogate a = false.
Proof.
  induction a as [|c a IH]; [done|]. cbn [forallb has_surrogate existsb].
  intros [Hc Ha]%andb_true_iff. fold (has_surrogate a). rewrite (IH Ha).
  unfold encodable in Hc. apply andb_true_iff in Hc as [Hc _].
  apply negb_true_iff in Hc. by rewrite Hc.
Qed.

(** The row that the import reads for an exported record gives the
    record's request fields back. *)
Lemma create_from_exported_row printable r :
  round_trips printable r = true ->
  create_from_row
    (make_row Obra_keys (read_back <$> row_cells printable r))
  = Return (request_fields r).
Proof.
  unfold round_trips.
  intros [[[[_ Ht]%andb_true_iff He]%andb_true_iff Hf]%andb_true_iff
            Ha]%andb_true_iff.
  unfold row_cells. cbn [fmap list_fmap].
  match goal with |- context [make_row Obra_keys [?c1; ?c2; ?c3; ?c4; ?c5; ?c6; ?c7]] =>
    destruct (exported_row_items c1 c2 c3 c4 c5 c6 c7) as (E1 & E2 & E3 & E4)
  end.
  unfold create_from_row. rewrite E1, E2, E3, E4.
  rewrite (read_back_keeps (titulo r) Ht), (read_back_keeps (editora r) He),
    (read_back_keeps (foto r) Hf).
  rewrite (read_back_keeps (str_list printable (autores r)))
    by (unfold str_list, list_display, keeps_leading; cbn [app];
        apply orb_true_r).
  rewrite (str_list_eval printable (autores r) Ha).
  unfold CreateObra_init, validate_str, validate_list_str.
  rewrite kept_items_text; [done|].
  apply Forall_forall. intros a Hin. apply encodable_no_surrogate.
  rewrite forallb_forall in Ha. apply Ha. by apply list_elem_of_In.
Qed.

Lemma filter_nonblank_rows printable rs :
  List.filter nonblank
    ((fun xs : list pystr => read_back <$> xs) <$> (row_cells printable <$> rs))
  = (fun xs : list pystr => read_back <$> xs) <$> (row_cells printable <$> rs).
Proof. induction rs as [|r rs IH]; [done|]. cbn. by rewrite IH. Qed.

(** The dicts that the import reads from an exported document. *)
Lemma DictReader_rows_document printable rs :
  Forall (fun r => forallb cell_ok (row_cells printable r) = true) rs ->
  DictReader_rows (document printable rs)
  = ((fun r => make_row Obra_keys (read_back <$> row_cells printable r))
       <$> rs, Return tt).
Proof.
  intros H. unfold DictReader_rows, document.
  rewrite reader_rows_document.
  - unfold document_records. rewrite fmap_cons.
    change (read_back <$> Obra_keys) with Obra_keys.
    rewrite filter_nonblank_rows, <- !list_fmap_compose. reflexivity.
  - unfold document_records.
    constructor; [split; [simpl; lia|reflexivity]|].
    apply Forall_fmap. eapply Forall_impl; [exact H|].
    intros r Hr. split; [simpl; lia|]. by apply cells_field_ok.
Qed.

Lemma round_trips_cells printable r :
  round_trips printable r = true ->
  forallb cell_ok (row_cells printable r) = true.
Proof.
  unfold round_trips.
  by intros [[[[? _]%andb_true_iff _]%andb_true_iff _]%andb_true_iff
              _]%andb_true_iff.
Qed.

(** C7, as the specification states it, fails: an empty store has no
    export (the handler answers 404), and a title that begins with a space
    comes back without it, because the import reads with
    [skipinitialspace=True] what the export wrote unquoted. *)
Lemma csv_round_trip_counterexample :
  let empty := fresh_process ticking_clock in
  let obra := {| c_titulo := str " A"; c_editora := str "E";
                 c_foto := str "u"; c_autores := [str "X"] |} in
  let w := run_ops [OpAppend obra] (fresh_process ticking_clock) in
  get_file_obras None empty = (Raise (HTTPException 404 nenhuma_obra), empty)
  /\ exists response w1 doc results w2',
       get_file_obras None w = (Return response, w1)
       /\ tmpdir w1 !! path response = Some doc
       /\ post_upload_obras doc (fresh_process ticking_clock)
          = (Return results, w2')
       /\ (titulo <$> _obras (obras w)) = [str " A"]
       /\ (titulo <$> results) = [str "A"]
       /\ request_fields <$> results <> request_fields <$> _obras (obras w).
Proof.
  intros empty obra w. split; [reflexivity|].
  pose (doc := str "titulo,editora,foto,autores,id,created_at,updated_at"
               ++ [CR; LF]
               ++ str " A,E,u,['X'],1,2021-01-01 00:00:00.000001,2021-01-01 00:00:00"
               ++ [CR; LF]).
  destruct (get_file_obras None w) as [res w1] eqn:E.
  vm_compute in E. injection E as <- <-.
  do 2 eexists. exists doc.
  destruct (post_upload_obras doc (fresh_process ticking_clock))
    as [res2 w2'] eqn:E2.
  vm_compute in E2. injection E2 as <- <-.
  do 2 eexists.
  split; [reflexivity|]. split; [vm_compute; reflexivity|].
  split; [reflexivity|]. split; [vm_compute; reflexivity|].
  split; [vm_compute; reflexivity|].
  vm_compute. intros [=].
Qed.

(** C7 (amended): for a store that is not empty and whose records are such
    that every cell of their exported rows is free of NUL characters, is
    encodable in UTF-8 and has at most 131072 characters, whose title,
    publisher and photo do not begin with a space unless the writer quotes
    them, and whose authors consist of encodable characters, the export
    writes a document whose import, into any store, creates as many
    records in the same order with the same four request fields. *)
Theorem csv_round_trip (w w2 : World) :
  _obras (obras w) <> [] ->
  Forall (fun r => round_trips (isprintable w) r = true) (_obras (obras w)) ->
  exists response w1 doc results w2',
    get_file_obras None w = (Return response, w1)
    /\ tmpdir w1 !! path response = Some doc
    /\ post_upload_obras doc w2 = (Return results, w2')
    /\ request_fields <$> results = request_fields <$> _obras (obras w)
    /\ _obras (obras w2') = _obras (obras w2) ++ results.
Proof.
  intros Hne H.
  assert (Hcells : Forall (fun r => forallb cell_ok
                                      (row_cells (isprintable w) r) = true)
                     (_obras (obras w))).
  { eapply Forall_impl; [exact H|]. intros r. apply round_trips_cells. }
  destruct (get_file_obras_ok w Hne Hcells) as [_ E].
  set (rs := _obras (obras w)) in *.
  set (cs := request_fields <$> rs).
  destruct (append_all_store cs w2) as (H1 & H2 & _).
  eexists _, _, (document (isprintable w) rs),
    (append_all cs w2).1, (append_all cs w2).2.
  split_and!; [exact E| | |exact H2|exact H1].
  - cbn [path tmpdir with_tmpdir]. apply lookup_insert_eq.
  - unfold post_upload_obras.
    rewrite (DictReader_rows_document _ _ Hcells). unfold except_KeyError.
    rewrite (upload_loop_all _ cs); [reflexivity|].
    unfold cs. apply Forall2_fmap, Forall_Forall2_diag.
    eapply Forall_impl; [exact H|]. intros r Hr.
    by apply create_from_exported_row.
Qed.

Lemma csv_round_trip_witness :
  let a := {| c_titulo := str "a, b"; c_editora := str "E";
              c_foto := str "u"; c_autores := [str "it's"; str "X"] |} in
  let w := run_ops [OpAppend sample_obra; OpAppend a]
             (fresh_process ticking_clock) in
  exists response w1 doc results w2',
    get_file_obras None w = (Return response, w1)
    /\ tmpdir w1 !! path response = Some doc
    /\ post_upload_obras doc (fresh_process ticking_clock)
       = (Return results, w2')
    /\ request_fields <$> results = [sample_obra; a].
Proof.
  intros a w.
  destruct (csv_round_trip w (fresh_process ticking_clock))
    as (response & w1 & doc & results & w2' & E1 & E2 & E3 & E4 & _).
  - vm_compute. discriminate.
  - assert (_obras (obras w)
            = [{| titulo := str "A"; editora := str "E"; foto := str "u";
                  autores := [str "X"]; id := 1;
                  created_at := ticking_clock 1;
                  updated_at := ticking_clock 0 |};
               {| titulo := str "a, b"; editora := str "E"; foto := str "u";
                  autores := [str "it's"; str "X"]; id := 2;
                  created_at := ticking_clock 3;
                  updated_at := ticking_clock 2 |}]) as ->
      by (vm_compute; reflexivity).
    repeat constructor.
  - exists response, w1, doc, results, w2'.
    split_and!; [exact E1|exact E2|exact E3|].
    rewrite E4. vm_compute. reflexivity.
Defined.

End RoundTrip.

(* ================================================================== *)
(** * Further properties of the store *)

Section StoreOrder.

Implicit Types (w : World) (l : list Obra) (r : Obra) (ops : list Op).

Lemma ids_sorted_step w (o : Op) :
  store_ok (obras w) ->
  StronglySorted Z.lt (id <$> _obras (obras w)) ->
  StronglySorted Z.lt (id <$> _obras (obras (step w o).1)).
Proof.
  intros (_ & Hb & _) Hs. destruct o as [c|i c|i]; unfold step.
  - rewrite append_eq. cbn [fst snd with_store obras _obras].
    rewrite fmap_app. apply StronglySorted_app_2; [|done|].
    + intros x1 x2 Hx1 Hx2. apply list_elem_of_fmap in Hx1 as (r & -> & Hr).
      apply list_elem_of_singleton in Hx2 as ->. cbn [id].
      rewrite Forall_forall in Hb. specialize (Hb r Hr). simpl in Hb. lia.
    + repeat constructor.
  - destruct (first_match_cases (_obras (obras w)) i)
      as [(l1 & old & l2 & Hl & Hid & Hl1)|Hn].
    + rewrite (update_found w i c l1 old l2 Hl Hid Hl1).
      cbn [fst snd with_store obras _obras]. rewrite Hl in Hs.
      by rewrite fmap_app, fmap_cons in *.
    + by rewrite (update_not_found w i c Hn).
  - destruct (first_match_cases (_obras (obras w)) i)
      as [(l1 & old & l2 & Hl & Hid & Hl1)|Hn].
    + rewrite (delete_found w i l1 old l2 Hl Hid Hl1).
      cbn [fst snd with_store obras _obras]. rewrite Hl in Hs.
      rewrite fmap_app, fmap_cons in Hs. rewrite fmap_app.
      apply StronglySorted_app in Hs as (H1 & H2 & H3).
      apply StronglySorted_app_2; [|done|by inversion H3].
      intros x1 x2 Hx1 Hx2. apply H1; [done|by right].
    + by rewrite (delete_not_found w i Hn).
Qed.

Lemma ids_sorted_run ops w :
  store_ok (obras w) ->
  StronglySorted Z.lt (id <$> _obras (obras w)) ->
  StronglySorted Z.lt (id <$> _obras (obras (run_ops ops w))).
Proof.
  revert w. induction ops as [|o ops IH]; intros w Hok Hs; [done|].
  cbn [run_ops]. apply IH; [by apply store_ok_step|by apply ids_sorted_step].
Qed.

Lemma sorted_length_bound (l : list Z) (lo hi : Z) :
  StronglySorted Z.lt l ->
  Forall (fun x => lo < x <= hi) l ->
  Z.of_nat (length l) <= Z.max 0 (hi - lo).
Proof.
  revert lo. induction l as [|x l IH]; intros lo Hs Hb; [cbn; lia|].
  apply StronglySorted_cons in Hs as [Hx Hs].
  apply Forall_cons in Hb as [Hlo Hb].
  assert (Hl : Forall (fun y => x < y <= hi) l).
  { rewrite Forall_forall in Hx, Hb. apply Forall_forall. intros y Hy.
    specialize (Hx y Hy). specialize (Hb y Hy). simpl in Hb. lia. }
  specialize (IH x Hs Hl). cbn [length]. lia.
Qed.

(** In every state reached from the empty store the stored records are in
    the order of their creation: their ids increase strictly along the
    list, each lies between 1 and the counter, and the store holds no more
    records than the counter says were created. *)
Theorem stored_ids_increase (w0 : World) (ops : list Op) :
  obras w0 = Obras_init ->
  let s := obras (run_ops ops w0) in
  StronglySorted Z.lt (id <$> _obras s)
  /\ Forall (fun r => 1 <= id r <= _current_id s) (_obras s)
  /\ Z.of_nat (length (_obras s)) <= _current_id s.
Proof.
  intros H0 s.
  assert (Hs : StronglySorted Z.lt (id <$> _obras s))
    by (apply ids_sorted_run; rewrite H0; [apply store_ok_init|constructor]).
  destruct (reachable_store_ok w0 ops H0) as (_ & Hb & Hc). fold s in Hb, Hc.
  split; [done|]. split.
  - eapply Forall_impl; [exact Hb|]. intros r Hr. simpl in Hr. lia.
  - pose proof (sorted_length_bound (id <$> _obras s) 0 (_current_id s) Hs)
      as Hl.
    rewrite length_fmap in Hl. rewrite Forall_fmap in Hl.
    specialize (Hl Hb). lia.
Qed.

Lemma stored_ids_increase_witness :
  let ops := [OpAppend sample_obra; OpAppend sample_obra; OpDelete 1;
              OpAppend sample_obra; OpUpdate 3 sample_obra] in
  StronglySorted Z.lt
    (id <$> _obras (obras (run_ops ops (fresh_process ticking_clock)))).
Proof.
  intros ops.
  destruct (stored_ids_increase (fresh_process ticking_clock) ops eq_refl)
    as [H _].
  exact H.
Defined.

(** The creation time of a record never changes: whatever operations run,
    a record that is stored under the id of an earlier stored record has
    the creation time of that record. *)
Theorem created_at_is_kept (w0 : World) (ops0 ops : list Op) (r r' : Obra) :
  obras w0 = Obras_init ->
  r ∈ _obras (obras (run_ops ops0 w0)) ->
  r' ∈ _obras (obras (run_ops ops (run_ops ops0 w0))) ->
  id r' = id r ->
  created_at r' = created_at r.
Proof.
  intros H0 Hr. pose proof (reachable_store_ok w0 ops0 H0) as Hok.
  set (w1 := run_ops ops0 w0) in *.
  assert (Hinv : id r <= _current_id (obras w1)
                 /\ forall x, x ∈ _obras (obras w1) -> id x = id r ->
                              created_at x = created_at r).
  { destruct Hok as (Hnd & Hb & _). split.
    - rewrite Forall_forall in Hb. specialize (Hb r Hr). simpl in Hb. lia.
    - intros x Hx Hid.
      assert (x = r) as ->; [|done].
      apply list_elem_of_lookup in Hx as [i Hi].
      apply list_elem_of_lookup in Hr as [j Hj].
      assert (i = j) as ->.
      { eapply NoDup_lookup; [exact Hnd| |];
          rewrite list_lookup_fmap; [by rewrite Hi|by rewrite Hj, Hid]. }
      congruence. }
  clearbody w1. clear Hr. revert w1 Hok Hinv.
  induction ops as [|o ops IH]; intros w Hok [Hle Hinv] Hr' Hid.
  - by apply Hinv.
  - cbn [run_ops] in Hr'. apply (IH (step w o).1); [by apply store_ok_step| |done..].
    destruct Hok as (_ & Hb & _).
    destruct o as [c|i c|i]; unfold step.
    + rewrite append_eq. cbn [fst snd with_store obras _obras _current_id].
      split; [lia|]. intros x [Hx|Hx]%elem_of_app Hx2; [by apply Hinv|].
      apply list_elem_of_singleton in Hx as ->. cbn [id] in Hx2. lia.
    + destruct (first_match_cases (_obras (obras w)) i)
        as [(l1 & old & l2 & Hl & Hio & Hl1)|Hn].
      * rewrite (update_found w i c l1 old l2 Hl Hio Hl1).
        cbn [fst snd with_store obras _obras _current_id].
        split; [done|]. rewrite Hl in Hinv.
        intros x [Hx|Hx]%elem_of_app Hx2.
        -- apply Hinv; [apply elem_of_app; by left|done].
        -- apply elem_of_cons in Hx as [->|Hx].
           ++ cbn [created_at id] in *.
              apply Hinv; [apply elem_of_app; right; left|done].
           ++ apply Hinv; [apply elem_of_app; right; by right|done].
      * by rewrite (update_not_found w i c Hn).
    + destruct (first_match_cases (_obras (obras w)) i)
        as [(l1 & old & l2 & Hl & Hio & Hl1)|Hn].
      * rewrite (delete_found w i l1 old l2 Hl Hio Hl1).
        cbn [fst snd with_store obras _obras _current_id].
        split; [done|]. rewrite Hl in Hinv.
        intros x [Hx|Hx]%elem_of_app Hx2; apply Hinv; try done;
          apply elem_of_app; [by left|right; by right].
      * by rewrite (delete_not_found w i Hn).
Qed.

Lemma created_at_is_kept_witness :
  let body := {| c_titulo := str "A2"; c_editora := str "E";
                 c_foto := str "u"; c_autores := [] |} in
  let w := run_ops [OpAppend sample_obra; OpUpdate 1 body]
             (run_ops [OpAppend sample_obra] (fresh_process ticking_clock)) in
  (created_at <$> List.filter (fun r => id r =? 1) (_obras (obras w)))
  = [ticking_clock 1].
Proof.
  intros body w.
  pose (r := {| titulo := str "A"; editora := str "E"; foto := str "u";
                autores := [str "X"]; id := 1;
                created_at := ticking_clock 1;
                updated_at := ticking_clock 0 |}).
  pose (r' := {| titulo := str "A2"; editora := str "E"; foto := str "u";
                 autores := []; id := 1;
                 created_at := ticking_clock 1;
                 updated_at := ticking_clock 4 |}).
  assert (E : List.filter (fun r => id r =? 1) (_obras (obras w)) = [r'])
    by (vm_compute; reflexivity).
  rewrite E. apply (f_equal (fun x => [x]) (x := created_at r')).
  apply (created_at_is_kept (fresh_process ticking_clock)
           [OpAppend sample_obra] [OpAppend sample_obra; OpUpdate 1 body]
           r r').
  - reflexivity.
  - vm_compute. left.
  - vm_compute. left.
  - reflexivity.
Defined.

Lemma filter_comprehension_naive (d : datetime) l :
  filter_comprehension (Some (Naive d)) l
  = Return (List.filter (fun r => naive_ge (created_at r) d) l).
Proof.
  induction l as [|r l IH]; [done|].
  cbn [filter_comprehension filter_test List.filter]. rewrite IH.
  by destruct (naive_ge (created_at r) d).
Qed.

(** The filtered listing: without a date it is the whole list; with a
    naive date it is the records created at or after it, in list order;
    with an aware date the comparison with the first record raises
    [TypeError], and only an empty store yields a list.  The state is left
    as it is. *)
Theorem filtered_listing (w : World) :
  get_all_as_dict_filtered None w = (Return (_obras (obras w)), w)
  /\ (forall d,
        get_all_as_dict_filtered (Some (Naive d)) w
        = (Return (List.filter (fun r => naive_ge (created_at r) d)
                     (_obras (obras w))), w))
  /\ (forall d utcoffset,
        get_all_as_dict_filtered (Some (Aware d utcoffset)) w
        = (match _obras (obras w) with
           | [] => Return []
           | _ :: _ => Raise TypeError
           end, w)).
Proof.
  unfold get_all_as_dict_filtered. split_and!.
  - by rewrite filter_none.
  - intros d. by rewrite filter_comprehension_naive.
  - intros d off. by destruct (_obras (obras w)).
Qed.

(** A created record is listed last: in a state reached from the empty
    store, [POST /obras] returns a record with the fields of the request
    and an id above every stored id, and [GET /obras] then answers with the
    list as it was followed by that record. *)
Theorem post_then_get (w0 : World) (ops : list Op) (obra : CreateObra) :
  obras w0 = Obras_init ->
  let w := run_ops ops w0 in
  exists r w',
    post_obras obra w = (Return r, w')
    /\ request_fields r = obra
    /\ Forall (fun r0 => id r0 < id r) (_obras (obras w))
    /\ get_obras w' = (Return (_obras (obras w) ++ [r]), w').
Proof.
  intros H0 w. destruct (reachable_store_ok w0 ops H0) as (_ & Hb & _).
  fold w in Hb. unfold post_obras. rewrite append_eq. cbv zeta.
  eexists _, _. split; [reflexivity|].
  split; [by destruct obra|]. split; [|reflexivity].
  cbn [id]. eapply Forall_impl; [exact Hb|]. intros r0 Hr0. simpl in Hr0. lia.
Qed.

Lemma post_then_get_witness :
  let w := run_ops [OpAppend sample_obra; OpDelete 1]
             (fresh_process ticking_clock) in
  exists r w',
    post_obras sample_obra w = (Return r, w')
    /\ id r = 2
    /\ get_obras w' = (Return [r], w').
Proof.
  intros w.
  destruct (post_then_get (fresh_process ticking_clock)
              [OpAppend sample_obra; OpDelete 1] sample_obra eq_refl)
    as (r & w' & E & _ & _ & Hg).
  exists r, w'. split; [exact E|]. split; [|exact Hg].
  change (post_obras sample_obra w = (Return r, w')) in E.
  unfold post_obras in E. rewrite append_eq in E.
  injection E as <- _. reflexivity.
Defined.

End StoreOrder.

(* ------------------------------------------------------------------ *)
(** ** Creation times *)

Section CreationTimes.

Implicit Types (w : World) (l : list Obra) (r : Obra) (ops : list Op)
  (d : datetime).

Lemma lex_compare_trans (a b c : list N) :
  lex_compare a b <> Lt -> lex_compare b c <> Lt -> lex_compare a c <> Lt.
Proof.
  revert b c. induction a as [|x a IH]; intros [|y b] [|z c]; cbn; try done.
  destruct (N.compare_spec x y) as [Hxy|Hxy|Hxy]; [|done|];
    (destruct (N.compare_spec y z) as [Hyz|Hyz|Hyz]; [|done|]);
    destruct (N.compare_spec x z) as [Hxz|Hxz|Hxz]; try done; try lia.
  apply IH.
Qed.

Lemma naive_ge_trans (a b c : datetime) :
  naive_ge a b = true -> naive_ge b c = true -> naive_ge a c = true.
Proof.
  unfold naive_ge, naive_compare. intros H1 H2.
  pose proof (lex_compare_trans (datetime_fields a) (datetime_fields b)
                (datetime_fields c)) as H.
  destruct (lex_compare (datetime_fields a) (datetime_fields b));
    destruct (lex_compare (datetime_fields b) (datetime_fields c));
    destruct (lex_compare (datetime_fields a) (datetime_fields c));
    try done; exfalso; by apply H.
Qed.


Lemma created_ok_step (c : nat -> datetime) w (o : Op) :
  clock_nondecreasing c -> created_ok c w -> created_ok c (step w o).1.
Proof.
  intros Hc (Hclock & Hs & Hk). unfold created_ok.
  destruct o as [obra|i obra|i]; unfold step.
  - rewrite append_eq. cbn [fst snd with_store obras _obras clock reads].
    split; [done|]. split.
    + rewrite fmap_app. apply StronglySorted_app_2; [|done|repeat constructor].
      intros x1 x2 Hx1 Hx2. apply list_elem_of_fmap in Hx1 as (r & -> & Hr).
      apply list_elem_of_singleton in Hx2 as ->. cbn [created_at].
      rewrite Forall_forall in Hk. destruct (Hk r Hr) as (k & Hlt & ->).
      rewrite Hclock. apply Hc. lia.
    + apply Forall_app. split.
      * eapply Forall_impl; [exact Hk|]. intros r (k & Hlt & E).
        exists k. split; [lia|done].
      * apply Forall_singleton. exists (S (reads w)). cbn [created_at].
        split; [lia|by rewrite Hclock].
  - destruct (first_match_cases (_obras (obras w)) i)
      as [(l1 & old & l2 & Hl & Hid & Hl1)|Hn].
    + rewrite (update_found w i obra l1 old l2 Hl Hid Hl1).
      cbn [fst snd with_store obras _obras clock reads].
      rewrite Hl in Hs, Hk. split; [done|]. split.
      * by rewrite fmap_app, fmap_cons in *.
      * apply Forall_app in Hk as [Hk1 Hk2].
        apply Forall_cons in Hk2 as [(k & Hlt & E) Hk2].
        apply Forall_app. split; [|apply Forall_cons; split].
        -- eapply Forall_impl; [exact Hk1|]. intros r (k' & Hlt' & E').
           exists k'. split; [lia|done].
        -- exists k. split; [lia|done].
        -- eapply Forall_impl; [exact Hk2|]. intros r (k' & Hlt' & E').
           exists k'. split; [lia|done].
    + by rewrite (update_not_found w i obra Hn).
  - destruct (first_match_cases (_obras (obras w)) i)
      as [(l1 & old & l2 & Hl & Hid & Hl1)|Hn].
    + rewrite (delete_found w i l1 old l2 Hl Hid Hl1).
      cbn [fst snd with_store obras _obras clock reads].
      rewrite Hl in Hs, Hk. split; [done|]. split.
      * rewrite fmap_app, fmap_cons in Hs. rewrite fmap_app.
        apply StronglySorted_app in Hs as (H1 & H2 & H3).
        apply StronglySorted_app_2; [|done|by inversion H3].
        intros x1 x2 Hx1 Hx2. apply H1; [done|by right].
      * apply Forall_app in Hk as [Hk1 Hk2].
        apply Forall_cons in Hk2 as [_ Hk2]. by apply Forall_app.
    + by rewrite (delete_not_found w i Hn).
Qed.

Lemma created_ok_run (c : nat -> datetime) ops w :
  clock_nondecreasing c -> created_ok c w -> created_ok c (run_ops ops w).
Proof.
  intros Hc. revert w. induction ops as [|o ops IH]; intros w H; [done|].
  cbn [run_ops]. by apply IH, created_ok_step.
Qed.

(** In a list whose creation times do not decrease, the records created
    at or after a date are the records from some position on. *)
Lemma filter_sorted_suffix d l :
  StronglySorted not_after (created_at <$> l) ->
  exists k : nat,
    List.filter (fun r => naive_ge (created_at r) d) l = drop k l.
Proof.
  induction l as [|r l IH]; intros Hs; [by exists 0%nat|].
  rewrite fmap_cons in Hs. apply StronglySorted_cons in Hs as [Hall Hs].
  cbn [List.filter]. destruct (naive_ge (created_at r) d) eqn:E.
  - exists 0%nat. cbn [drop]. f_equal.
    rewrite forallb_filter_id; [done|].
    apply forallb_forall. intros x Hx.
    rewrite Forall_forall in Hall.
    apply (naive_ge_trans _ (created_at r)); [|done].
    apply Hall, list_elem_of_fmap_2, list_elem_of_In, Hx.
  - destruct (IH Hs) as [k Hk]. exists (S k). by cbn [drop].
Qed.

(** With a clock that never goes back, in every state reached from the
    empty store the creation times do not decrease along the list, and the
    listing filtered by a naive date is the stored list from some position
    on: the filter never leaves a gap. *)
Theorem filtered_listing_is_suffix (w0 : World) (ops : list Op) (d : datetime) :
  obras w0 = Obras_init ->
  clock_nondecreasing (clock w0) ->
  let w := run_ops ops w0 in
  StronglySorted not_after (created_at <$> _obras (obras w))
  /\ exists k : nat,
       get_all_as_dict_filtered (Some (Naive d)) w
       = (Return (drop k (_obras (obras w))), w).
Proof.
  intros H0 Hc w.
  assert (Hok : created_ok (clock w0) w).
  { apply created_ok_run; [done|]. unfold created_ok. rewrite H0.
    split; [done|]. split; constructor. }
  destruct Hok as (_ & Hs & _). split; [done|].
  destruct (filter_sorted_suffix d _ Hs) as [k Hk]. exists k.
  unfold get_all_as_dict_filtered. by rewrite filter_comprehension_naive, Hk.
Qed.

Lemma ticking_clock_nondecreasing : clock_nondecreasing ticking_clock.
Proof.
  intros n m H. unfold naive_ge, naive_compare, ticking_clock.
  cbn [datetime_fields lex_compare year month day hour minute second
       microsecond N.compare Pos.compare Pos.compare_cont].
  destruct (N.compare_spec (N.of_nat m) (N.of_nat n)); [done|lia|done].
Qed.

Lemma filtered_listing_is_suffix_witness :
  let w := run_ops [OpAppend sample_obra; OpAppend sample_obra;
                    OpAppend sample_obra; OpUpdate 1 sample_obra]
             (fresh_process ticking_clock) in
  exists k : nat,
    get_all_as_dict_filtered (Some (Naive (ticking_clock 3))) w
    = (Return (drop k (_obras (obras w))), w).
Proof.
  intros w.
  destruct (filtered_listing_is_suffix (fresh_process ticking_clock)
              [OpAppend sample_obra; OpAppend sample_obra;
               OpAppend sample_obra; OpUpdate 1 sample_obra]
              (ticking_clock 3) eq_refl ticking_clock_nondecreasing)
    as [_ H].
  exact H.
Defined.

End CreationTimes.

(* ------------------------------------------------------------------ *)
(** ** The export under a filter *)

Section FilteredExport.

Implicit Types (w : World) (rs sel : list Obra) (r : Obra) (f : positive)
  (data_inicial : option query_datetime).

Lemma same_but_file_refl f w : same_but_file f w w.
Proof. by unfold same_but_file. Qed.

Lemma same_but_file_trans f w1 w2 w3 :
  same_but_file f w1 w2 -> same_but_file f w2 w3 -> same_but_file f w1 w3.
Proof.
  intros (A1 & A2 & A3 & A4 & A5) (B1 & B2 & B3 & B4 & B5).
  unfold same_but_file. split_and!; try congruence.
  intros g Hg. by rewrite (B5 g Hg), (A5 g Hg).
Qed.

Lemma file_write_frame f (text : pystr) w :
  same_but_file f w (file_write f text w).2.
Proof.
  unfold file_write. destruct (forallb encodable text);
    [|apply same_but_file_refl].
  unfold same_but_file. cbn [snd obras clock reads isprintable tmpdir].
  split_and!; try done. intros g Hg. by rewrite lookup_insert_ne.
Qed.

Lemma writerows_frame f rs w : same_but_file f w (writerows f rs w).2.
Proof.
  revert w. induction rs as [|r rs IH]; intros w; [apply same_but_file_refl|].
  rewrite writerows_cons.
  destruct (writerow (row_cells (isprintable w) r)) as [record| |];
    [|apply same_but_file_refl..].
  pose proof (file_write_frame f record w) as Hw.
  destruct (file_write f record w) as [[[]| |] w1]; cbn [snd] in Hw; [|done..].
  eapply same_but_file_trans; [exact Hw|apply IH].
Qed.

Lemma get_file_obras_frame data_inicial w :
  same_but_file (fresh (dom (tmpdir w))) w (get_file_obras data_inicial w).2.
Proof.
  unfold get_file_obras, py_bind at 1, get_all_as_dict_filtered.
  destruct (filter_comprehension data_inicial (_obras (obras w)))
    as [[|r sel]| |]; try apply same_but_file_refl.
  unfold py_bind at 1, NamedTemporaryFile.
  set (f := fresh (dom (tmpdir w))).
  set (w1 := {| obras := obras w; clock := clock w; reads := reads w;
                tmpdir := <[f := []]> (tmpdir w);
                isprintable := isprintable w |}).
  assert (H1 : same_but_file f w w1).
  { unfold same_but_file, w1. cbn [obras clock reads isprintable tmpdir].
    split_and!; try done. intros g Hg. by rewrite lookup_insert_ne. }
  unfold py_bind at 1, writeheader, py_bind at 1, lift.
  change (writerow Obra_keys) with (Return (A:=pystr) (record_text Obra_keys)).
  cbv iota.
  pose proof (file_write_frame f (record_text Obra_keys) w1) as H2.
  destruct (file_write f (record_text Obra_keys) w1) as [[[]| |] w2];
    cbn [snd] in *; try (eapply same_but_file_trans; [exact H1|exact H2]).
  unfold py_bind.
  pose proof (writerows_frame f (r :: sel) w2) as H3.
  destruct (writerows f (r :: sel) w2) as [[[]| |] w3]; cbn [snd] in *;
    (eapply same_but_file_trans;
       [eapply same_but_file_trans; [exact H1|exact H2]|exact H3]).
Qed.

(** The export changes nothing but its own file: whatever the outcome of
    the request, the store, the clock and the number of its readings are
    as before, and every file that the directory held before the request
    is there unchanged after the handler and after the background task. *)
Theorem file_obras_frame (data_inicial : option query_datetime) (w : World) :
  let w1 := (get_file_obras data_inicial w).2 in
  let w2 := (serve_file_obras data_inicial w).2 in
  (obras w1 = obras w /\ clock w1 = clock w /\ reads w1 = reads w)
  /\ (obras w2 = obras w /\ clock w2 = clock w /\ reads w2 = reads w)
  /\ forall g content,
       tmpdir w !! g = Some content ->
       tmpdir w1 !! g = Some content /\ tmpdir w2 !! g = Some content.
Proof.
  intros w1 w2.
  pose proof (get_file_obras_frame data_inicial w) as H1. fold w1 in H1.
  set (f := fresh (dom (tmpdir w))) in *.
  assert (Hf : tmpdir w !! f = None) by (apply not_elem_of_dom, is_fresh).
  assert (H2 : same_but_file f w w2).
  { unfold w2, serve_file_obras. unfold w1 in H1.
    destruct (get_file_obras data_inicial w) as [[response| |] w'] eqn:E;
      cbn [snd] in *; [|done..].
    assert (Hb : background response = None \/ background response = Some f).
    { revert E. unfold get_file_obras, py_bind at 1, get_all_as_dict_filtered.
      destruct (filter_comprehension data_inicial (_obras (obras w)))
        as [[|r sel]| |]; [discriminate| |discriminate..].
      unfold py_bind at 1, NamedTemporaryFile at 1. fold f.
      unfold py_bind at 1.
      match goal with |- context [writeheader f ?x] =>
        destruct (writeheader f x) as [[[]| |] w3] end; [|discriminate..].
      unfold py_bind.
      match goal with |- context [writerows f ?l ?x] =>
        destruct (writerows f l x) as [[[]| |] w4] end; [|discriminate..].
      unfold py_ret. intros [= <- _]. by right. }
    destruct Hb as [-> | ->]; [done|].
    unfold cleanup. destruct (tmpdir w' !! f); cbn [snd]; [|done].
    eapply same_but_file_trans; [exact H1|].
    unfold same_but_file. cbn [obras clock reads isprintable tmpdir].
    split_and!; try done. intros g Hg. by rewrite lookup_delete_ne. }
  destruct H1 as (A1 & A2 & A3 & _ & A5), H2 as (B1 & B2 & B3 & _ & B5).
  split_and!; try done.
  intros g content Hg.
  assert (g <> f) by (intros ->; congruence).
  by rewrite A5, B5.
Qed.

(** The handler on a non-empty selection that can be written. *)
Lemma get_file_obras_selected data_inicial sel w :
  filter_comprehension data_inicial (_obras (obras w)) = Return sel ->
  sel <> [] ->
  Forall (fun r => forallb cell_ok (row_cells (isprintable w) r) = true) sel ->
  let f := fresh (dom (tmpdir w)) in
  get_file_obras data_inicial w
  = (Return {| path := f; media_type := str "text/csv";
               filename := str "obras.csv"; background := Some f |},
     with_tmpdir w (<[f := document (isprintable w) sel]> (tmpdir w))).
Proof.
  intros Hsel Hne H f.
  unfold get_file_obras, py_bind at 1, get_all_as_dict_filtered.
  rewrite Hsel. destruct sel as [|r rs]; [done|].
  unfold py_bind at 1, NamedTemporaryFile. fold f.
  unfold py_bind at 1, writeheader, py_bind at 1, lift.
  change (writerow Obra_keys) with (Return (A:=pystr) (record_text Obra_keys)).
  cbv iota.
  match goal with |- context [file_write f ?t ?w1] =>
    rewrite (file_write_ok f t [] w1 eq_refl)
      by (cbn; by rewrite lookup_insert_eq) end.
  unfold py_bind.
  match goal with |- context [writerows f ?l ?w1] =>
    rewrite (writerows_ok f l ([] ++ record_text Obra_keys) w1);
      [|by cbn; rewrite lookup_insert_eq|done] end.
  unfold py_ret, with_tmpdir, document, document_records.
  cbn [obras clock reads tmpdir isprintable].
  rewrite !insert_insert_eq, fmap_cons. reflexivity.
Qed.

(** The export of a selection: when the filtered listing is a non-empty
    list whose rows can all be written, the handler creates a file under a
    name that the directory did not have, the request is answered 200
    with the header and one row for each selected record, in the order of
    the store, and, the background task having removed the file, the
    state after the request is the state before it. *)
Theorem file_obras_exports_selection (data_inicial : option query_datetime)
    (sel : list Obra) (w : World) :
  (get_all_as_dict_filtered data_inicial w).1 = Return sel ->
  sel <> [] ->
  Forall (fun r => forallb cell_ok (row_cells (isprintable w) r) = true) sel ->
  let f := fresh (dom (tmpdir w)) in
  let doc := concat (record_text <$> (Obra_keys
                                        :: (row_cells (isprintable w) <$> sel))) in
  tmpdir w !! f = None
  /\ (exists response,
        get_file_obras data_inicial w
        = (Return response, with_tmpdir w (<[f := doc]> (tmpdir w)))
        /\ path response = f /\ background response = Some f
        /\ filename response = str "obras.csv")
  /\ serve_file_obras data_inicial w = (Some 200, Some doc, w).
Proof.
  intros Hsel Hne H f doc.
  assert (Hf : tmpdir w !! f = None) by (apply not_elem_of_dom, is_fresh).
  pose proof (get_file_obras_selected data_inicial sel w Hsel Hne H) as E.
  fold f in E. change (document (isprintable w) sel) with doc in E.
  split_and!; [done|by eexists|].
  unfold serve_file_obras. rewrite E. cbn [background path].
  unfold cleanup, with_tmpdir. cbn [tmpdir obras clock reads isprintable].
  rewrite lookup_insert_eq. cbn [snd].
  rewrite delete_insert_eq, delete_id by done. by destruct w.
Qed.

Lemma file_obras_exports_selection_witness :
  let w := run_ops [OpAppend sample_obra; OpAppend sample_obra;
                    OpAppend sample_obra]
             (fresh_process ticking_clock) in
  exists body,
    serve_file_obras (Some (Naive (ticking_clock 3))) w = (Some 200, Some body, w)
    /\ length (List.filter (N.eqb LF) body) = 3%nat.
Proof.
  intros w.
  pose (sel := [{| titulo := str "A"; editora := str "E"; foto := str "u";
                   autores := [str "X"]; id := 2;
                   created_at := ticking_clock 3;
                   updated_at := ticking_clock 2 |};
                {| titulo := str "A"; editora := str "E"; foto := str "u";
                   autores := [str "X"]; id := 3;
                   created_at := ticking_clock 5;
                   updated_at := ticking_clock 4 |}]).
  destruct (file_obras_exports_selection
              (Some (Naive (ticking_clock 3))) sel w) as (_ & _ & E).
  - vm_compute. reflexivity.
  - discriminate.
  - repeat constructor.
  - eexists. split; [exact E|]. vm_compute. reflexivity.
Defined.

(** Nothing to export: the request is answered 404 with the detail
    "Nenhuma obra para exportar!", no file is created and the state is
    left as it is, when the store is empty, whatever the date, and when a
    naive date is given and every stored record was created before it. *)
Theorem file_obras_nothing_to_export (data_inicial : option query_datetime)
    (w : World) :
  match data_inicial with
  | Some (Naive d) =>
      Forall (fun r => naive_lt (created_at r) d = true) (_obras (obras w))
  | _ => _obras (obras w) = []
  end ->
  get_file_obras data_inicial w = (Raise (HTTPException 404 nenhuma_obra), w)
  /\ serve_file_obras data_inicial w = (Some 404, None, w).
Proof.
  intros H.
  assert (E : filter_comprehension data_inicial (_obras (obras w)) = Return []).
  { destruct data_inicial as [[d|d off]|]; [|by rewrite H..].
    rewrite filter_comprehension_naive. f_equal.
    induction H as [|r l Hr _ IH]; [done|]. cbn [List.filter].
    unfold naive_lt in Hr. unfold naive_ge.
    by destruct (naive_compare (created_at r) d). }
  assert (E' : get_file_obras data_inicial w
               = (Raise (HTTPException 404 nenhuma_obra), w)).
  { unfold get_file_obras, py_bind, get_all_as_dict_filtered. by rewrite E. }
  split; [done|]. unfold serve_file_obras. by rewrite E'.
Qed.

Lemma file_obras_nothing_to_export_witness :
  let w := run_ops [OpAppend sample_obra; OpAppend sample_obra]
             (fresh_process ticking_clock) in
  serve_file_obras (Some (Naive (ticking_clock 9))) w = (Some 404, None, w).
Proof.
  intros w.
  apply (file_obras_nothing_to_export (Some (Naive (ticking_clock 9))) w).
  apply Forall_forall. intros r Hr.
  assert (H : forallb (fun r => naive_lt (created_at r) (ticking_clock 9))
                (_obras (obras w)) = true) by (vm_compute; reflexivity).
  rewrite forallb_forall in H. apply H, list_elem_of_In, Hr.
Defined.

(** A date with a UTC offset cannot be compared with the naive creation
    times: on a store that holds a record the export fails with
    [TypeError], which is answered 500, and creates no file. *)
Theorem file_obras_aware_date (d : datetime) (utcoffset : Z) (w : World) :
  _obras (obras w) <> [] ->
  get_file_obras (Some (Aware d utcoffset)) w = (Raise TypeError, w)
  /\ serve_file_obras (Some (Aware d utcoffset)) w = (Some 500, None, w).
Proof.
  intros Hne.
  assert (E : get_file_obras (Some (Aware d utcoffset)) w
              = (Raise TypeError, w)).
  { unfold get_file_obras, py_bind, get_all_as_dict_filtered.
    by destruct (_obras (obras w)). }
  split; [done|]. unfold serve_file_obras. by rewrite E.
Qed.

Lemma file_obras_aware_date_witness :
  let w := run_ops [OpAppend sample_obra] (fresh_process ticking_clock) in
  serve_file_obras (Some (Aware (ticking_clock 0) 0)) w = (Some 500, None, w).
Proof.
  intros w.
  apply (file_obras_aware_date (ticking_clock 0) 0 w).
  vm_compute. discriminate.
Defined.

End FilteredExport.

(* ------------------------------------------------------------------ *)
(** ** The outcomes of an upload *)

Section UploadOutcomes.

Implicit Types (w : World) (file : pystr) (fieldnames row : list pystr)
  (rows good rest : list (gmap pystr (option pystr))) (cs : list CreateObra)
  (e : PyExn).

Lemma append_all_ids cs w :
  id <$> (append_all cs w).1
  = seqZ (_current_id (obras w) + 1) (Z.of_nat (length cs))
  /\ _current_id (obras (append_all cs w).2)
     = _current_id (obras w) + Z.of_nat (length cs)
  /\ reads (append_all cs w).2 = (reads w + 2 * length cs)%nat.
Proof.
  revert w. induction cs as [|c cs IH]; intros w.
  - cbn. split_and!; [done|lia|lia].
  - cbn [append_all]. rewrite append_eq.
    match goal with |- context [append_all cs ?w1] =>
      destruct (IH w1) as (H1 & H2 & H3);
      destruct (append_all cs w1) as [rs w2] end.
    cbn [fst snd] in *. cbn [with_store obras _current_id reads] in *.
    rewrite fmap_cons, H1, H2, H3. cbn [id length].
    rewrite (seqZ_cons (_current_id (obras w) + 1)) by lia.
    split_and!; [|lia|lia].
    do 2 f_equal; lia.
Qed.










(** An upload that imports completely: when the reader is exhausted
    without error and every row gives a valid request, the handler answers
    200 with one record for each row, in the order of the rows; the
    records are appended to the store with the fields of their rows and
    with consecutive ids from the counter on, and the counter has advanced
    by the number of rows. *)
Theorem upload_imports_all_rows file w rows cs :
  DictReader_rows file = (rows, Return tt) ->
  Forall2 (fun d c => create_from_row d = Return c) rows cs ->
  let rs := (append_all cs w).1 in
  let w' := (append_all cs w).2 in
  post_upload_obras file w = (Return rs, w')
  /\ status_of (post_upload_obras file w).1 = Some 200
  /\ _obras (obras w') = _obras (obras w) ++ rs
  /\ request_fields <$> rs = cs
  /\ id <$> rs = seqZ (_current_id (obras w) + 1) (Z.of_nat (length rows))
  /\ _current_id (obras w')
     = _current_id (obras w) + Z.of_nat (length rows).
Proof.
  intros Hrows Hgood rs w'.
  assert (E : post_upload_obras file w = (Return rs, w')).
  { unfold post_upload_obras. rewrite Hrows. unfold except_KeyError.
    by rewrite (upload_loop_all rows cs w Hgood). }
  destruct (append_all_store cs w) as (H1 & H2 & _).
  destruct (append_all_ids cs w) as (H3 & H4 & _).
  rewrite (Forall2_length _ _ _ Hgood).
  split_and!; try done. by rewrite E.
Qed.

Lemma upload_imports_all_rows_witness :
  let file := str "titulo,editora,foto,autores" ++ [LF]
              ++ str "A,E,u,['X']" ++ [LF]
              ++ [LF]
              ++ str "A, E, u,  ['X']" ++ [LF] in
  let w := run_ops [OpAppend sample_obra; OpDelete 1]
             (fresh_process ticking_clock) in
  exists rs w',
    post_upload_obras file w = (Return rs, w')
    /\ id <$> rs = [2; 3]
    /\ request_fields <$> rs = [sample_obra; sample_obra].
Proof.
  intros file w.
  pose (fieldnames := [str "titulo"; str "editora"; str "foto"; str "autores"]).
  pose (rows := [make_row fieldnames [str "A"; str "E"; str "u"; str "['X']"];
                 make_row fieldnames [str "A"; str "E"; str "u"; str "['X']"]]).
  destruct (upload_imports_all_rows file w rows [sample_obra; sample_obra])
    as (E & _ & _ & Hf & Hid & _).
  - vm_compute. reflexivity.
  - repeat constructor.
  - eexists _, _. split; [exact E|]. split; [exact Hid|exact Hf].
Defined.

Lemma foldl_restval_ne (keys : list pystr)
    (d : gmap pystr (option pystr)) (k : pystr) :
  k ∉ keys -> foldl (fun d key => <[key := None]> d) d keys !! k = d !! k.
Proof.
  revert d. induction keys as [|a keys IH]; intros d Hk; [done|].
  apply not_elem_of_cons in Hk as [Hne Hk]. cbn [foldl].
  by rewrite (IH _ Hk), lookup_insert_ne.
Qed.

Lemma foldl_restval_Some (keys : list pystr)
    (d : gmap pystr (option pystr)) (k : pystr) :
  k ∈ keys ->
  foldl (fun d key => <[key := None]> d) d keys !! k = Some None.
Proof.
  revert d. induction keys as [|a keys IH]; intros d Hk;
    [by apply elem_of_nil in Hk|].
  cbn [foldl]. destruct (decide (k ∈ keys)) as [Hin|Hnot]; [by apply IH|].
  apply elem_of_cons in Hk as [->|Hk]; [|done].
  by rewrite (foldl_restval_ne _ _ _ Hnot), lookup_insert_eq.
Qed.

(** A data row that ends before the column [autores]: the [DictReader]
    puts [None] under the name, [literal_eval] raises [ValueError] on it,
    and the request is answered 500 with the records of the rows before
    it in the store. *)
Theorem upload_short_row file w fieldnames row good rest
    (ending : Result unit) cs :
  (forall k, k ∈ required_columns -> k ∈ fieldnames) ->
  str "autores" ∈ drop (length row) fieldnames ->
  DictReader_rows file = (good ++ make_row fieldnames row :: rest, ending) ->
  Forall2 (fun d c => create_from_row d = Return c) good cs ->
  make_row fieldnames row !! str "autores" = Some None
  /\ post_upload_obras file w = (Raise ValueError, (append_all cs w).2)
  /\ status_of (post_upload_obras file w).1 = Some 500.
Proof.
  intros Hreq Hshort Hrows Hgood.
  assert (Hcell : make_row fieldnames row !! str "autores" = Some None)
    by (unfold make_row; by apply foldl_restval_Some).
  assert (Hbad : create_from_row (make_row fieldnames row) = Raise ValueError).
  { unfold create_from_row.
    destruct (getitem_present fieldnames row (str "titulo")) as [c1 ->];
      [apply Hreq; by_compute|].
    destruct (getitem_present fieldnames row (str "editora")) as [c2 ->];
      [apply Hreq; by_compute|].
    destruct (getitem_present fieldnames row (str "foto")) as [c3 ->];
      [apply Hreq; by_compute|].
    unfold getitem. by rewrite Hcell. }
  assert (E : post_upload_obras file w
              = (Raise ValueError, (append_all cs w).2)).
  { unfold post_upload_obras. rewrite Hrows. unfold except_KeyError.
    by rewrite (upload_loop_stops good cs _ rest ending ValueError w
                  Hgood Hbad). }
  split_and!; [done|done|by rewrite E].
Qed.

Lemma upload_short_row_witness :
  let file := str "titulo,editora,foto,autores" ++ [LF]
              ++ str "A,E,u" ++ [LF] in
  let w := fresh_process ticking_clock in
  post_upload_obras file w = (Raise ValueError, w).
Proof.
  intros file w.
  destruct (upload_short_row file w
              [str "titulo"; str "editora"; str "foto"; str "autores"]
              [str "A"; str "E"; str "u"] [] [] (Return tt) [])
    as (_ & E & _).
  - intros k Hk. exact Hk.
  - cbn [length drop]. left.
  - vm_compute. reflexivity.
  - constructor.
  - exact E.
Defined.

(** An error of the reader ends the upload where it occurs: when the
    reader raises [csv.Error] after rows that all give valid requests,
    the request is answered 500 and the records of those rows stay in the
    store. *)
Theorem upload_reader_error file w good cs :
  DictReader_rows file = (good, Raise CsvError) ->
  Forall2 (fun d c => create_from_row d = Return c) good cs ->
  let rs := (append_all cs w).1 in
  let w' := (append_all cs w).2 in
  post_upload_obras file w = (Raise CsvError, w')
  /\ status_of (post_upload_obras file w).1 = Some 500
  /\ _obras (obras w') = _obras (obras w) ++ rs
  /\ request_fields <$> rs = cs
  /\ length rs = length good.
Proof.
  intros Hrows Hgood rs w'.
  assert (E : post_upload_obras file w = (Raise CsvError, w')).
  { unfold post_upload_obras. rewrite Hrows. unfold except_KeyError.
    rewrite <- (app_nil_r good).
    rewrite (upload_loop_good good cs [] _ [] w Hgood). reflexivity. }
  destruct (append_all_store cs w) as (H1 & H2 & _).
  split_and!; [done|by rewrite E|done|done|].
  assert (length rs = length cs) as ->
    by (unfold rs; by rewrite <- H2 at 2; rewrite length_fmap).
  symmetry. by eapply Forall2_length.
Qed.

Lemma upload_reader_error_witness :
  let file := str "titulo,editora,foto,autores" ++ [LF]
              ++ str "A,E,u,['X']" ++ [LF]
              ++ str "B" ++ [CR] ++ str "C,E,u,[]" ++ [LF] in
  let w := fresh_process ticking_clock in
  exists w',
    post_upload_obras file w = (Raise CsvError, w')
    /\ (titulo <$> _obras (obras w')) = [str "A"].
Proof.
  intros file w.
  pose (fieldnames := [str "titulo"; str "editora"; str "foto"; str "autores"]).
  pose (good := [make_row fieldnames [str "A"; str "E"; str "u"; str "['X']"]]).
  destruct (upload_reader_error file w good [sample_obra])
    as (E & _ & Hst & _).
  - vm_compute. reflexivity.
  - repeat constructor.
  - eexists. split; [exact E|]. rewrite Hst. reflexivity.
Defined.

(** The import reads the four columns and nothing else: two rows that
    agree on [titulo], [editora], [foto] and [autores] give the same
    request or fail in the same way, whatever other columns they have. *)
Theorem upload_ignores_other_columns (d1 d2 : gmap pystr (option pystr)) :
  (forall k, k ∈ required_columns -> d1 !! k = d2 !! k) ->
  create_from_row d1 = create_from_row d2.
Proof.
  intros H. unfold create_from_row, getitem.
  rewrite (H (str "titulo")), (H (str "editora")), (H (str "foto")),
    (H (str "autores")); [done|by_compute..].
Qed.

Lemma upload_ignores_other_columns_witness :
  create_from_row
    (make_row [str "titulo"; str "editora"; str "foto"; str "autores"]
       [str "A"; str "E"; str "u"; str "['X']"])
  = create_from_row
      (make_row [str "id"; str "autores"; str "foto"; str "editora";
                 str "titulo"; str "ano"]
         [str "7"; str "['X']"; str "u"; str "E"; str "A"]).
Proof.
  apply upload_ignores_other_columns.
  intros k Hk. unfold required_columns in Hk.
  repeat (apply elem_of_cons in Hk as [->|Hk]; [vm_compute; reflexivity|]).
  by apply elem_of_nil in Hk.
Defined.

End UploadOutcomes.
